(** * Robot control app: frame codec and TCP client

    A shallow embedding of [RobotProtocol], [TCPClient] and
    [RobotMobileApp.decode_response] of [main.py], with the properties of
    the wire protocol and of the connection state proved about it.

    Conventions of the embedding.
    - A Python [bytes] value is a [list Z]; [bytes([x])] checks [0 <= x < 256]
      and raises [ValueError] otherwise, as Python does.
    - Code that can raise returns [Res A]: [Ok a] or [Raise e].
    - A Python [str] is a Rocq [string] holding its UTF-8 encoding.
    - Dictionaries are [gmap]s.
    - A Python [float] is a [PyFloat.float], an IEEE 754 double with its
      rounding; [create_angle_command] has one entry point for an [int]
      argument and one for a [float] argument. *)

From Stdlib Require Import ZArith Lia Ascii String.
From stdpp Require Import base option list gmap strings pretty.

Local Open Scope Z_scope.

(** ** Exceptions and results *)

Inductive exn : Type :=
  | IndexError
  | ValueError
  | OverflowError.

Inductive Res (A : Type) : Type :=
  | Ok (a : A)
  | Raise (e : exn).
Arguments Ok {A} a.
Arguments Raise {A} e.

#[global] Instance res_ret : MRet Res := fun A a => Ok a.
#[global] Instance res_bind : MBind Res := fun A B k m =>
  match m with
  | Ok a => k a
  | Raise e => Raise e
  end.

(** Python's short-circuit [a and b] and [a or b] on conditions that may raise:
    the right operand is evaluated only when the left one does not decide. *)
Definition andR (a b : Res bool) : Res bool :=
  match a with
  | Ok true => b
  | Ok false => Ok false
  | Raise e => Raise e
  end.
Definition orR (a b : Res bool) : Res bool :=
  match a with
  | Ok true => Ok true
  | Ok false => b
  | Raise e => Raise e
  end.

(** An [if c: t else: e] whose condition may raise. *)
Definition ifR {A : Type} (c : Res bool) (t e : Res A) : Res A :=
  match c with
  | Ok true => t
  | Ok false => e
  | Raise x => Raise x
  end.

Definition returns {A : Type} (m : Res A) : Prop :=
  exists a, m = Ok a.

(** ** Bytes *)

Abbreviation bytes := (list Z).

Definition is_byte (x : Z) : Prop := 0 <= x < 256.
Definition is_byteb (x : Z) : bool := (0 <=? x) && (x <? 256).

(** [bytes([x])] *)
Definition bytes1 (x : Z) : Res bytes :=
  if is_byteb x then Ok [x] else Raise ValueError.

(** [data[i]] for a literal index [i >= 0] *)
Definition getitem (data : bytes) (i : nat) : Res Z :=
  match data !! i with
  | Some b => Ok b
  | None => Raise IndexError
  end.

(** [sum(data)] as a mathematical integer, used in statements only. *)
Definition byte_sum (data : bytes) : Z := foldr Z.add 0 data.

(** Python's [l[lo:hi]] for [0 <= lo <= hi]. *)
Definition slice (lo hi : nat) (l : bytes) : bytes := take (hi - lo) (drop lo l).

(** Python's [l[:-1]]. *)
Definition drop_last (l : bytes) : bytes := take (length l - 1) l.

(** ** Python floats

    A Python [float] is an IEEE 754 binary64 value. A finite value is kept
    as its sign and its magnitude counted in units of [2^-1074], the
    smallest positive double, so that the magnitude of every finite double
    is an integer: [1.0] is [2^1074] units. A double carries 53 significant
    bits: a magnitude [n] is a double when it is a multiple of
    [2^(log2 n - 52)], and below [2^1024]. Arithmetic rounds to the nearest
    double, ties to the even significand. *)

Module PyFloat.

Definition one : Z := 2 ^ 1074.
Definition overflow_units : Z := 2 ^ 2098.

Inductive float : Type :=
  | NaN
  | Inf (negative : bool)
  | Fin (negative : bool) (units : Z).

(** The exponent of the unit in the last place of a magnitude [n]. *)
Definition ulp_exp (n : Z) : Z := Z.max 0 (Z.log2 n - 52).

Definition representable (n : Z) : bool :=
  (0 <=? n) && (n mod 2 ^ ulp_exp n =? 0).

Definition is_double (x : float) : Prop :=
  match x with
  | Fin _ n => representable n = true /\ n < overflow_units
  | _ => True
  end.

(** The integer nearest to [p / q], ties to even, for [q > 0]. *)
Definition round_half_even (p q : Z) : Z :=
  let d := p / q in
  let r := p mod q in
  if 2 * r <? q then d
  else if q <? 2 * r then d + 1
  else if Z.even d then d else d + 1.

(** The double nearest to the magnitude [p / q], ties to even. *)
Definition round_double (p q : Z) : Z :=
  let c := ulp_exp (p / q) in
  round_half_even p (q * 2 ^ c) * 2 ^ c.

(** The value as a signed number of units; [-0.0] and [0.0] are both 0. *)
Definition signed (negative : bool) (n : Z) : Z :=
  if negative then - n else n.

(** [a < b] *)
Definition lt (a b : float) : bool :=
  match a, b with
  | NaN, _ => false
  | _, NaN => false
  | Inf na, Inf nb => na && negb nb
  | Inf na, Fin _ _ => na
  | Fin _ _, Inf nb => negb nb
  | Fin na x, Fin nb y => signed na x <? signed nb y
  end.

(** [min(a, b)] and [max(a, b)]: the second argument replaces the first
    only when it compares smaller, respectively greater. *)
Definition py_min (a b : float) : float := if lt b a then b else a.
Definition py_max (a b : float) : float := if lt a b then b else a.

(** A float literal with an integer value, [0 <= k < 2^53]. *)
Definition of_nat_literal (k : Z) : float := Fin false (k * one).

(** [x * 180.0] *)
Definition times_180 (x : float) : float :=
  match x with
  | NaN => NaN
  | Inf s => Inf s
  | Fin s n =>
      let r := round_double (n * 180) 1 in
      if r <? overflow_units then Fin s r else Inf s
  end.

(** [x / 180.0] *)
Definition over_180 (x : float) : float :=
  match x with
  | NaN => NaN
  | Inf s => Inf s
  | Fin s n => Fin s (round_double n 180)
  end.

(** [int(x)]: truncation towards zero. *)
Definition to_int (x : float) : Res Z :=
  match x with
  | NaN => Raise ValueError
  | Inf _ => Raise OverflowError
  | Fin s n => Ok (signed s (n / one))
  end.

(** The double [m * 2^e], for [0 <= m < 2^53] and [-1074 <= e]. *)
Definition of_parts (negative : bool) (m e : Z) : float :=
  Fin negative (m * 2 ^ (e + 1074)).

End PyFloat.

(** ** RobotProtocol *)

Module RobotProtocol.

(** The [for byte in checksum_bytes] loop of [calculate_checksum], started
    from the accumulator [checksum]. *)
Fixpoint checksum_loop (checksum : Z) (checksum_bytes : bytes) : Z :=
  match checksum_bytes with
  | [] => checksum
  | byte :: rest => checksum_loop (Z.land (checksum + byte) 0xFF) rest
  end.

Definition has_header (data_bytes : bytes) : bool :=
  match data_bytes with
  | b0 :: b1 :: _ => (b0 =? 0xAA) && (b1 =? 0x55)
  | _ => false
  end.

Definition calculate_checksum (data_bytes : bytes) : Z :=
  match data_bytes with
  | [] => 0
  | _ =>
      let checksum_bytes :=
        if has_header data_bytes then drop 2 data_bytes else data_bytes in
      checksum_loop 0 checksum_bytes
  end.

(** The [commands] dictionary of [create_movement_command]. *)
Definition commands : gmap Z Z :=
  list_to_map [(1, 0x01); (2, 0x02); (3, 0x03); (4, 0x04); (5, 0x05); (6, 0x06)].

Definition create_movement_command (direction id_byte : Z) : Res (option bytes) :=
  match commands !! direction with
  | None => Ok None
  | Some code =>
      idb ← bytes1 id_byte;
      dirb ← bytes1 code;
      let frame_data := [0x04; 0x80] ++ idb ++ dirb in
      let checksum := calculate_checksum ([0xAA; 0x55] ++ frame_data) in
      csb ← bytes1 checksum;
      let command := [0xAA; 0x55] ++ frame_data ++ csb in
      Ok (Some command)
  end.

(** [max(lo, min(hi, x))] on integers. *)
Definition clamp (lo hi x : Z) : Z := Z.max lo (Z.min hi x).

(** [int(x)] applied to a Python [int] is the identity. The callers pass the
    integer slider values [current_speed] and [accel_time]. *)
Definition py_int (x : Z) : Z := x.

(** [float(k)] for a Python [int] [k]: CPython raises [OverflowError] when
    [k] rounds to a magnitude of [2^1024] or more. Otherwise the result is
    the double nearest to [k]; rounding is monotone and fixes [0] and [180],
    so it does not change the outcome of the comparisons with [0.0] and
    [180.0] that follow, and the double is represented by [k] itself. *)
Definition float_overflow_bound : Z := 2 ^ 1024 - 2 ^ 970.

Definition py_float (k : Z) : Res Z :=
  if Z.abs k <? float_overflow_bound then Ok k else Raise OverflowError.

Definition create_speed_command (speed_rpm accel_time id_byte : Z) : Res bytes :=
  let speed_rpm := clamp 0 115 (py_int speed_rpm) in
  let accel_time := clamp 0 255 (py_int accel_time) in
  idb ← bytes1 id_byte;
  spb ← bytes1 speed_rpm;
  acb ← bytes1 accel_time;
  let frame_data := [0x07; 0x81; 0x01] ++ idb ++ spb ++ acb in
  let checksum := calculate_checksum ([0xAA; 0x55] ++ frame_data) in
  csb ← bytes1 checksum;
  let command := [0xAA; 0x55] ++ frame_data ++ csb in
  Ok command.

(** After the clamp [angle_degrees] is an integer-valued double in [0, 180];
    on those [x * 180.0 / 180.0] is exact ([x * 180 <= 32400]) and [int] is
    the identity, so the arithmetic is carried out in [Z]. *)
Definition create_angle_command (angle_degrees id_byte : Z) : Res bytes :=
  f ← py_float angle_degrees;
  let angle_degrees := clamp 0 180 f in
  let angle_byte := angle_degrees * 180 / 180 in
  let angle_byte := clamp 0 255 angle_byte in
  idb ← bytes1 id_byte;
  anb ← bytes1 angle_byte;
  let frame_data := [0x07; 0x81; 0x02] ++ idb ++ anb ++ [0x00] in
  let checksum := calculate_checksum ([0xAA; 0x55] ++ frame_data) in
  csb ← bytes1 checksum;
  let command := [0xAA; 0x55] ++ frame_data ++ csb in
  Ok command.

(** [create_angle_command] called with a [float]: [float(angle_degrees)]
    is the argument itself, and the arithmetic is that of doubles. *)
Definition clamp_angle (angle_degrees : PyFloat.float) : PyFloat.float :=
  PyFloat.py_max (PyFloat.of_nat_literal 0)
    (PyFloat.py_min (PyFloat.of_nat_literal 180) angle_degrees).

Definition create_angle_command_float (angle_degrees : PyFloat.float)
    (id_byte : Z) : Res bytes :=
  let angle_degrees := clamp_angle angle_degrees in
  angle_byte ← PyFloat.to_int
                 (PyFloat.over_180 (PyFloat.times_180 angle_degrees));
  let angle_byte := clamp 0 255 angle_byte in
  idb ← bytes1 id_byte;
  anb ← bytes1 angle_byte;
  let frame_data := [0x07; 0x81; 0x02] ++ idb ++ anb ++ [0x00] in
  let checksum := calculate_checksum ([0xAA; 0x55] ++ frame_data) in
  csb ← bytes1 checksum;
  let command := [0xAA; 0x55] ++ frame_data ++ csb in
  Ok command.

(** [angle_byte * 180.0 / 180.0]: exact for every byte, the result is the
    integer-valued double [angle_byte]. *)
Definition decode_angle_from_byte (angle_byte : Z) : Z :=
  angle_byte * 180 / 180.

(** Upper-case hexadecimal digits of a natural number. *)
Fixpoint upper_hex (d : Hexadecimal.uint) : string :=
  match d with
  | Hexadecimal.Nil => ""
  | Hexadecimal.D0 d => String "0"%char (upper_hex d)
  | Hexadecimal.D1 d => String "1"%char (upper_hex d)
  | Hexadecimal.D2 d => String "2"%char (upper_hex d)
  | Hexadecimal.D3 d => String "3"%char (upper_hex d)
  | Hexadecimal.D4 d => String "4"%char (upper_hex d)
  | Hexadecimal.D5 d => String "5"%char (upper_hex d)
  | Hexadecimal.D6 d => String "6"%char (upper_hex d)
  | Hexadecimal.D7 d => String "7"%char (upper_hex d)
  | Hexadecimal.D8 d => String "8"%char (upper_hex d)
  | Hexadecimal.D9 d => String "9"%char (upper_hex d)
  | Hexadecimal.Da d => String "A"%char (upper_hex d)
  | Hexadecimal.Db d => String "B"%char (upper_hex d)
  | Hexadecimal.Dc d => String "C"%char (upper_hex d)
  | Hexadecimal.Dd d => String "D"%char (upper_hex d)
  | Hexadecimal.De d => String "E"%char (upper_hex d)
  | Hexadecimal.Df d => String "F"%char (upper_hex d)
  end.

Fixpoint zeros (n : nat) : string :=
  match n with
  | O => ""
  | S n => String "0"%char (zeros n)
  end.

(** [f'{b:02X}']: the sign counts towards the width of two. *)
Definition format_02X (b : Z) : string :=
  let digits := upper_hex (N.to_hex_uint (Z.to_N (Z.abs b))) in
  if b <? 0
  then "-" +:+ zeros (1 - String.length digits) +:+ digits
  else zeros (2 - String.length digits) +:+ digits.

(** [sep.join(parts)] *)
Fixpoint join (sep : string) (parts : list string) : string :=
  match parts with
  | [] => ""
  | [p] => p
  | p :: rest => p +:+ sep +:+ join sep rest
  end.

Definition format_hex (data_bytes : bytes) : string :=
  join " " (format_02X <$> data_bytes).

End RobotProtocol.

(** ** RobotMobileApp.decode_response *)

Module RobotMobileApp.

(** The branch [decode_response] returns from, with the locals it has read
    from the frame at that point. *)
Inductive Decoded : Type :=
  | MovementResponse (id_byte direction : Z)
  | SpeedResponse (id_byte speed accel : Z)
  | AngleResponse (angle_byte angle_degrees : Z).

Definition direction_codes : gmap Z string :=
  list_to_map [(0x01, "前进确认"); (0x02, "后退确认"); (0x03, "左转确认");
               (0x04, "右转确认"); (0x05, "刹车确认"); (0x06, "停止确认")].

Definition id_names : gmap Z string :=
  list_to_map [(0, "整个小车"); (1, "轮毂1"); (2, "轮毂2"); (3, "轮毂3");
               (4, "轮毂4")].

(** [id_names.get(id_byte, f"ID={id_byte}")] *)
Definition id_name (id_byte : Z) : string :=
  default ("ID=" +:+ pretty id_byte) (id_names !! id_byte).

(** [f"{x:.1f}"] of an integer-valued double. *)
Definition format_1f (x : Z) : string := pretty x +:+ ".0".

(** The f-string of each [return]. *)
Definition message (d : Decoded) : string :=
  match d with
  | MovementResponse id_byte direction =>
      "运动响应: " +:+ id_name id_byte +:+ " "
        +:+ default "未知" (direction_codes !! direction)
  | SpeedResponse id_byte speed accel =>
      "速度设置响应: " +:+ id_name id_byte +:+ " 速度=" +:+ pretty speed
        +:+ "RPM, 加速时间=" +:+ pretty accel +:+ "*0.1ms"
  | AngleResponse angle_byte angle_degrees =>
      "角度设置响应: 角度=" +:+ format_1f angle_degrees +:+ "° (字节: 0x"
        +:+ RobotProtocol.format_02X angle_byte +:+ ")"
  end.

(** [data[i] == v] and [data[i] != v] *)
Definition item_eq (data : bytes) (i : nat) (v : Z) : Res bool :=
  b ← getitem data i; Ok (b =? v).
Definition item_ne (data : bytes) (i : nat) (v : Z) : Res bool :=
  b ← getitem data i; Ok (negb (b =? v)).

(** The body of [decode_response], statement by statement; each [return] of
    a string yields the branch and its locals, the string itself is
    [message] of them. *)
Definition decode_fields (data : bytes) : Res (option Decoded) :=
  if (length data <? 6)%nat then Ok None else
  ifR (orR (item_ne data 0 0xAA) (item_ne data 1 0x55)) (Ok None) (
  let hex_str := RobotProtocol.format_hex data in
  ifR (andR (Ok (length data =? 6)%nat)
        (andR (item_eq data 2 0x04) (item_eq data 3 0x80))) (
    direction ← (if (5 <? length data)%nat then getitem data 5 else Ok 0);
    id_byte ← (if (4 <? length data)%nat then getitem data 4 else Ok 0);
    Ok (Some (MovementResponse id_byte direction))
  ) (
  ifR (andR (Ok (length data =? 8)%nat)
        (andR (item_eq data 2 0x07)
          (andR (item_eq data 3 0x81) (item_eq data 4 0x01)))) (
    id_byte ← getitem data 5;
    speed ← getitem data 6;
    accel ← getitem data 7;
    Ok (Some (SpeedResponse id_byte speed accel))
  ) (
  ifR (andR (Ok (length data =? 8)%nat)
        (andR (item_eq data 2 0x07)
          (andR (item_eq data 3 0x81) (item_eq data 4 0x02)))) (
    angle_byte ← getitem data 6;
    let angle_degrees := RobotProtocol.decode_angle_from_byte angle_byte in
    Ok (Some (AngleResponse angle_byte angle_degrees))
  ) (
  Ok None)))).

Definition decode_response (data : bytes) : Res (option string) :=
  r ← decode_fields data; Ok (fmap (M:=option) message r).

End RobotMobileApp.

(** The three response shapes, as conditions on the LEN, TYPE and SUBTYPE
    bytes (indices 2, 3 and 4). *)
Definition known_shape (len_b type_b sub_b : Z) : Prop :=
  (len_b = 0x04 /\ type_b = 0x80) \/
  (len_b = 0x07 /\ type_b = 0x81 /\ sub_b = 0x01) \/
  (len_b = 0x07 /\ type_b = 0x81 /\ sub_b = 0x02).

(** What [decode_fields] computes on a frame of six bytes or more, by the
    number of bytes after the sixth. *)
Definition decode_cases (b0 b1 b2 b3 b4 b5 : Z) (rest : bytes)
  : option RobotMobileApp.Decoded :=
  if negb (b0 =? 0xAA) || negb (b1 =? 0x55) then None else
  match rest with
  | [] =>
      if (b2 =? 0x04) && (b3 =? 0x80)
      then Some (RobotMobileApp.MovementResponse b4 b5) else None
  | [b6; b7] =>
      if (b2 =? 0x07) && (b3 =? 0x81) && (b4 =? 0x01)
      then Some (RobotMobileApp.SpeedResponse b5 b6 b7)
      else if (b2 =? 0x07) && (b3 =? 0x81) && (b4 =? 0x02)
      then Some (RobotMobileApp.AngleResponse b6
                   (RobotProtocol.decode_angle_from_byte b6))
      else None
  | _ => None
  end.

(** ** TCPClient

    The client object, the socket operations it performs and the outcomes the
    operating system may answer with. A socket object is a handle; every call
    on a socket is appended to [ops], so that "the socket is not touched" is
    a statement about [ops]. Time-outs are in milliseconds. *)

Module TCPClient.

Definition sock : Type := nat.

Inductive sock_op : Type :=
  | OpCreate (s : sock)
  | OpSetTimeout (s : sock) (ms : Z)
  | OpConnect (s : sock) (host : string) (port : Z)
  | OpClose (s : sock)
  | OpSendAll (s : sock) (data : bytes)
  | OpRecv (s : sock) (bufsize : Z).

(** What a call of the registered callback does, as far as the receive loop
    can see: it returns, or it raises. The callback is the consumer's code
    and has no access to the client's fields. *)
Inductive cb_result : Type :=
  | CbReturns
  | CbRaisesTimeout
  | CbRaisesOther.

Definition callback : Type := bytes -> cb_result.

Record client : Type := mkClient {
  socket : option sock;
  is_connected : bool;
  receive_thread : option nat;
  receive_callback : option callback;
  host : string;
  port : Z
}.

(** The process: the one [TCPClient] object, the socket calls made so far
    (oldest first), the chunks handed to the callback, the number of receive
    threads that have not returned, and the next fresh socket handle and
    thread number. *)
Record world : Type := mkWorld {
  self : client;
  ops : list sock_op;
  delivered : list bytes;
  live_threads : nat;
  next_sock : sock;
  next_thread : nat
}.

(** [__init__] *)
Definition init (on_receive_callback : option callback) : world :=
  {| self := {| socket := None; is_connected := false; receive_thread := None;
                receive_callback := on_receive_callback;
                host := "192.168.0.12"; port := 12345 |};
     ops := []; delivered := []; live_threads := 0;
     next_sock := 0%nat; next_thread := 0%nat |}.

Definition set_self (c : client) (w : world) : world :=
  {| self := c; ops := ops w; delivered := delivered w;
     live_threads := live_threads w; next_sock := next_sock w;
     next_thread := next_thread w |}.

Definition log_ops (l : list sock_op) (w : world) : world :=
  {| self := self w; ops := ops w ++ l; delivered := delivered w;
     live_threads := live_threads w; next_sock := next_sock w;
     next_thread := next_thread w |}.

Definition set_callback (cb : option callback) (w : world) : world :=
  set_self {| socket := socket (self w); is_connected := is_connected (self w);
              receive_thread := receive_thread (self w);
              receive_callback := cb;
              host := host (self w); port := port (self w) |} w.

(** Where the [try] block of [connect] leaves: [socket.socket] raises, or
    [socket.connect] raises one of the three handled classes, or starting the
    receive thread raises, which happens after [is_connected], [host] and
    [port] have been assigned, or nothing raises. ([settimeout] with these
    constants does not raise on an open socket.) *)
Inductive connect_outcome : Type :=
  | CreateRaises (msg : string)
  | ConnectTimesOut
  | ConnectRefused
  | ConnectRaises (msg : string)
  | StartRaises (msg : string)
  | ConnectSucceeds.

Definition connect (h : string) (p : Z) (o : connect_outcome) (w : world)
  : world * (bool * string) :=
  match o with
  | CreateRaises msg => (w, (false, "连接失败: " +:+ msg))
  | _ =>
      let s := next_sock w in
      let c := self w in
      (* self.socket = socket.socket(...); settimeout(5); connect((host, port)) *)
      let c1 := {| socket := Some s; is_connected := is_connected c;
                   receive_thread := receive_thread c;
                   receive_callback := receive_callback c;
                   host := host c; port := port c |} in
      let w1 := {| self := c1;
                   ops := ops w ++ [OpCreate s; OpSetTimeout s 5000; OpConnect s h p];
                   delivered := delivered w; live_threads := live_threads w;
                   next_sock := S s; next_thread := next_thread w |} in
      match o with
      | ConnectTimesOut => (w1, (false, "连接超时"))
      | ConnectRefused => (w1, (false, "连接被拒绝"))
      | ConnectRaises msg => (w1, (false, "连接失败: " +:+ msg))
      | _ =>
          (* settimeout(0.5); is_connected = True; host; port;
             self.receive_thread = threading.Thread(...) *)
          let c2 := {| socket := Some s; is_connected := true;
                       receive_thread := Some (next_thread w);
                       receive_callback := receive_callback c;
                       host := h; port := p |} in
          match o with
          | StartRaises msg =>
              (* receive_thread.start() raises: no thread runs *)
              ({| self := c2; ops := ops w1 ++ [OpSetTimeout s 500];
                  delivered := delivered w; live_threads := live_threads w;
                  next_sock := S s; next_thread := S (next_thread w) |},
               (false, "连接失败: " +:+ msg))
          | _ =>
              ({| self := c2; ops := ops w1 ++ [OpSetTimeout s 500];
                  delivered := delivered w; live_threads := S (live_threads w);
                  next_sock := S s; next_thread := S (next_thread w) |},
               (true, "连接成功"))
          end
      end
  end.

(** [close_raises] tells whether [socket.close()] raises; the bare [except]
    swallows it. *)
Definition disconnect (close_raises : bool) (w : world) : world :=
  match socket (self w) with
  | Some s =>
      let c := self w in
      log_ops [OpClose s]
        (set_self {| socket := None; is_connected := false;
                     receive_thread := receive_thread c;
                     receive_callback := receive_callback c;
                     host := host c; port := port c |} w)
  | None => w
  end.

Inductive send_outcome : Type :=
  | SendSucceeds
  | SendRaises (msg : string).

Definition send_data (data_bytes : bytes) (o : send_outcome) (w : world)
  : world * (bool * string) :=
  match is_connected (self w), socket (self w) with
  | true, Some s =>
      let w1 := log_ops [OpSendAll s data_bytes] w in
      match o with
      | SendSucceeds => (w1, (true, "发送成功"))
      | SendRaises msg =>
          let c := self w in
          (set_self {| socket := socket c; is_connected := false;
                       receive_thread := receive_thread c;
                       receive_callback := receive_callback c;
                       host := host c; port := port c |} w1,
           (false, "发送失败: " +:+ msg))
      end
  | _, _ => (w, (false, "未连接"))
  end.

(** What [socket.recv(1024)] does in one iteration of the receive loop. *)
Inductive recv_outcome : Type :=
  | RecvData (data : bytes)
  | RecvTimeout
  | RecvError.

Inductive loop_status : Type :=
  | Looping
  | Returned.

(** One evaluation of the [while] condition of [_receive_loop] followed,
    when it holds, by one execution of the loop body. *)
Definition receive_iteration (o : recv_outcome) (w : world)
  : world * loop_status :=
  match is_connected (self w), socket (self w) with
  | true, Some s =>
      let w1 := log_ops [OpRecv s 1024] w in
      match o with
      | RecvData data =>
          match data, receive_callback (self w) with
          | _ :: _, Some cb =>
              let w2 := {| self := self w1; ops := ops w1;
                           delivered := delivered w1 ++ [data];
                           live_threads := live_threads w1;
                           next_sock := next_sock w1;
                           next_thread := next_thread w1 |} in
              match cb data with
              | CbReturns => (w2, Looping)
              | CbRaisesTimeout => (w2, Looping)
              | CbRaisesOther => (w2, Returned)
              end
          | _, _ => (w1, Looping)
          end
      | RecvTimeout => (w1, Looping)
      | RecvError => (w1, Returned)
      end
  | _, _ => (w, Returned)
  end.

(** [_receive_loop] run against the answers [os] of the socket, one per
    iteration; [Looping] means the answers ran out before the loop returned. *)
Fixpoint receive_loop (os : list recv_outcome) (w : world) : world * loop_status :=
  match os with
  | [] => (w, Looping)
  | o :: os' =>
      match receive_iteration o w with
      | (w', Looping) => receive_loop os' w'
      | (w', Returned) => (w', Returned)
      end
  end.

(** The calls of the caller's thread and the iterations of the receive
    threads, interleaved in any order. *)
Inductive event : Type :=
  | EvSetCallback (cb : option callback)
  | EvConnect (h : string) (p : Z) (o : connect_outcome)
  | EvDisconnect (close_raises : bool)
  | EvSend (data_bytes : bytes) (o : send_outcome)
  | EvReceive (o : recv_outcome).

Definition thread_returns (w : world) : world :=
  {| self := self w; ops := ops w; delivered := delivered w;
     live_threads := pred (live_threads w); next_sock := next_sock w;
     next_thread := next_thread w |}.

Definition step (ev : event) (w : world) : world :=
  match ev with
  | EvSetCallback cb => set_callback cb w
  | EvConnect h p o => fst (connect h p o w)
  | EvDisconnect c => disconnect c w
  | EvSend d o => fst (send_data d o w)
  | EvReceive o =>
      match live_threads w with
      | O => w
      | S _ =>
          match receive_iteration o w with
          | (w', Looping) => w'
          | (w', Returned) => thread_returns w'
          end
      end
  end.

Definition run (evs : list event) (w : world) : world :=
  foldl (fun w ev => step ev w) w evs.

Definition is_connect (ev : event) : bool :=
  match ev with
  | EvConnect _ _ _ => true
  | _ => false
  end.

End TCPClient.

(** A client connected to the default address, used in the examples. *)
Definition connected_world : TCPClient.world :=
  fst (TCPClient.connect "192.168.0.12" 12345 TCPClient.ConnectSucceeds
         (TCPClient.init None)).

(** ** Reading a hex dump back

    The inverse of [format_hex] on bytes; it is not part of the program and
    only serves to show that the dump determines the bytes. *)

Definition all_bytes : list Z := Z.of_nat <$> seq 0 256.

Definition hex_digits : list ascii := list_ascii_of_string "0123456789ABCDEF".

(** The position of [c] in [l], counted from [n]. *)
Fixpoint position (c : ascii) (l : list ascii) (n : Z) : option Z :=
  match l with
  | [] => None
  | x :: l' => if Ascii.eqb c x then Some n else position c l' (n + 1)
  end.

Definition hex_digit_value (c : ascii) : option Z := position c hex_digits 0.

Definition parse_02X (c1 c2 : ascii) : option Z :=
  match hex_digit_value c1, hex_digit_value c2 with
  | Some h, Some l => Some (16 * h + l)
  | _, _ => None
  end.

Fixpoint parse_hex (s : string) : option bytes :=
  match s with
  | EmptyString => Some []
  | String c1 (String c2 rest) =>
      match parse_02X c1 c2 with
      | Some b =>
          match rest with
          | EmptyString => Some [b]
          | String _ rest' =>
              match parse_hex rest' with
              | Some l => Some (b :: l)
              | None => None
              end
          end
      | None => None
      end
  | _ => None
  end.

(** [format_02X b] is two characters that read back as [b]. *)
Definition check_02X (b : Z) : bool :=
  match RobotProtocol.format_02X b with
  | String c1 (String c2 EmptyString) =>
      match parse_02X c1 c2 with
      | Some v => v =? b
      | None => false
      end
  | _ => false
  end.

(** ** Vocabulary for the statements about [TCPClient] *)

(** The states a client can be in: those reached from [__init__] by calls
    of its methods and iterations of its receive threads. *)
Definition reachable (w : TCPClient.world) : Prop :=
  exists cb evs, w = TCPClient.run evs (TCPClient.init cb).

(** The calls of [connect] that get as far as [self.is_connected = True]:
    those in which [socket.connect] does not raise, whether or not the
    receive thread can then be started. *)
Definition connect_sets_flag (ev : TCPClient.event) : bool :=
  match ev with
  | TCPClient.EvConnect _ _ TCPClient.ConnectSucceeds => true
  | TCPClient.EvConnect _ _ (TCPClient.StartRaises _) => true
  | _ => false
  end.

(** The non-empty chunks among the answers of [recv], in order. *)
Definition chunks (os : list TCPClient.recv_outcome) : list bytes :=
  flat_map (fun o => match o with
                     | TCPClient.RecvData (b :: data) => [b :: data]
                     | _ => []
                     end) os.

(** The socket an operation is performed on. *)
Definition op_sock (op : TCPClient.sock_op) : TCPClient.sock :=
  match op with
  | TCPClient.OpCreate s => s
  | TCPClient.OpSetTimeout s _ => s
  | TCPClient.OpConnect s _ _ => s
  | TCPClient.OpClose s => s
  | TCPClient.OpSendAll s _ => s
  | TCPClient.OpRecv s _ => s
  end.

(** In a log of socket operations, every [sendall] on a socket comes before
    every [close] of that socket. *)
Definition sends_before_close (l : list TCPClient.sock_op) : Prop :=
  forall (i j : nat) s d,
    l !! i = Some (TCPClient.OpClose s) ->
    l !! j = Some (TCPClient.OpSendAll s d) -> (j < i)%nat.

(** What the log, the next fresh handle and [self.socket] satisfy together. *)
Definition log_inv (l : list TCPClient.sock_op) (next : TCPClient.sock)
    (cur : option TCPClient.sock) : Prop :=
  (forall op, op ∈ l -> (op_sock op < next)%nat) /\
  (forall s, cur = Some s -> (s < next)%nat /\ TCPClient.OpClose s ∉ l) /\
  sends_before_close l.

Definition world_inv (w : TCPClient.world) : Prop :=
  log_inv (TCPClient.ops w) (TCPClient.next_sock w)
          (TCPClient.socket (TCPClient.self w)).

(** A session that connects, sends, disconnects, connects again and sends. *)
Definition two_sessions : TCPClient.world :=
  TCPClient.run
    [TCPClient.EvConnect "192.168.0.12" 12345 TCPClient.ConnectSucceeds;
     TCPClient.EvSend [0x01] TCPClient.SendSucceeds;
     TCPClient.EvDisconnect false;
     TCPClient.EvConnect "192.168.0.12" 12345 TCPClient.ConnectSucceeds;
     TCPClient.EvSend [0x02] TCPClient.SendSucceeds] (TCPClient.init None).

(** ** RobotMobileApp: the handlers that send commands and log replies

    The fields of the application object that these handlers read or write:
    the client, the selected id, the slider values (stored as [int]s by the
    slider callbacks), the two log panes and the pop-ups shown so far. A
    handler returns the state it leaves and the exception it raises, if any.
    [timestamp] is the string [datetime.now().strftime("%H:%M:%S")] yields
    when the handler reads the clock. *)

Module Handlers.

Record app : Type := mkApp {
  tcp_client : TCPClient.world;
  id_selection : Z;
  current_speed : Z;
  current_angle : Z;
  send_text : string;
  recv_text : string;
  popups : list (string * string)
}.

Definition newline : string := String "010"%char EmptyString.

Definition with_client (w : TCPClient.world) (a : app) : app :=
  {| tcp_client := w; id_selection := id_selection a;
     current_speed := current_speed a; current_angle := current_angle a;
     send_text := send_text a; recv_text := recv_text a; popups := popups a |}.

(** [show_popup]: a pop-up with this title and message is opened. *)
Definition show_popup (title message : string) (a : app) : app :=
  {| tcp_client := tcp_client a; id_selection := id_selection a;
     current_speed := current_speed a; current_angle := current_angle a;
     send_text := send_text a; recv_text := recv_text a;
     popups := popups a ++ [(title, message)] |}.

(** [log_send]: [self.send_text.text += message + "\n"] *)
Definition log_send (message : string) (a : app) : app :=
  {| tcp_client := tcp_client a; id_selection := id_selection a;
     current_speed := current_speed a; current_angle := current_angle a;
     send_text := send_text a +:+ message +:+ newline;
     recv_text := recv_text a; popups := popups a |}.

(** [log_recv]: [self.recv_text.text += message + "\n"] *)
Definition log_recv (message : string) (a : app) : app :=
  {| tcp_client := tcp_client a; id_selection := id_selection a;
     current_speed := current_speed a; current_angle := current_angle a;
     send_text := send_text a;
     recv_text := recv_text a +:+ message +:+ newline; popups := popups a |}.

Definition connected (a : app) : bool :=
  TCPClient.is_connected (TCPClient.self (tcp_client a)).

Definition direction_names : gmap Z string :=
  list_to_map [(1, "前进"); (2, "后退"); (3, "左转"); (4, "右转");
               (5, "刹车"); (6, "停止")].

Definition send_movement_command (direction : Z) (timestamp : string)
    (o : TCPClient.send_outcome) (a : app) : app * option exn :=
  if negb (connected a)
  then (show_popup "未连接" "请先连接到服务器" a, None)
  else
    match RobotProtocol.create_movement_command direction (id_selection a) with
    | Raise e => (a, Some e)
    | Ok (Some ((_ :: _) as command)) =>
        let '(w, (success, message)) :=
          TCPClient.send_data command o (tcp_client a) in
        let a := with_client w a in
        if success then
          let hex_str := RobotProtocol.format_hex command in
          let direction_name := default "未知" (direction_names !! direction) in
          let id_name := RobotMobileApp.id_name (id_selection a) in
          (log_send ("[" +:+ timestamp +:+ "] " +:+ id_name +:+ " "
                       +:+ direction_name +:+ ": " +:+ hex_str) a, None)
        else (show_popup "发送失败" message a, None)
    | Ok _ => (show_popup "错误" "无效的运动命令" a, None)
    end.

(** [accel_input] is the value of [int(self.accel_input.text)], [None] when
    it raises [ValueError]. *)
Definition send_speed_command (accel_input : option Z) (timestamp : string)
    (o : TCPClient.send_outcome) (a : app) : app * option exn :=
  if negb (connected a)
  then (show_popup "未连接" "请先连接到服务器" a, None)
  else
    match accel_input with
    | None => (show_popup "错误" "请输入有效的数字" a, None)
    | Some accel_time =>
        if (accel_time <? 0) || (255 <? accel_time)
        then (show_popup "错误" "加速时间必须在0-255之间" a, None)
        else
          match RobotProtocol.create_speed_command
                  (current_speed a) accel_time (id_selection a) with
          | Raise e => (a, Some e)
          | Ok command =>
              let '(w, (success, message)) :=
                TCPClient.send_data command o (tcp_client a) in
              let a := with_client w a in
              if success then
                let hex_str := RobotProtocol.format_hex command in
                let id_name := RobotMobileApp.id_name (id_selection a) in
                let a := log_send ("[" +:+ timestamp +:+ "] " +:+ id_name
                                     +:+ " 设置速度: " +:+ pretty (current_speed a)
                                     +:+ "RPM, 加速时间: " +:+ pretty accel_time) a in
                (log_send ("       指令: " +:+ hex_str) a, None)
              else (show_popup "发送失败" message a, None)
          end
    end.

(** [logged_byte] is the value of [int(self.current_angle * 180.0 / 180.0)],
    which the handler computes in floating point for the log line after the
    command has been sent; it may raise. *)
Definition send_angle_command (logged_byte : Res Z) (timestamp : string)
    (o : TCPClient.send_outcome) (a : app) : app * option exn :=
  if negb (connected a)
  then (show_popup "未连接" "请先连接到服务器" a, None)
  else
    match RobotProtocol.create_angle_command (current_angle a) 0x00 with
    | Raise e => (a, Some e)
    | Ok command =>
        let '(w, (success, message)) :=
          TCPClient.send_data command o (tcp_client a) in
        let a := with_client w a in
        if success then
          match logged_byte with
          | Raise e => (a, Some e)
          | Ok angle_byte =>
              let hex_str := RobotProtocol.format_hex command in
              let a := log_send ("[" +:+ timestamp +:+ "] 设置角度: "
                                   +:+ pretty (current_angle a) +:+ "° (字节: 0x"
                                   +:+ RobotProtocol.format_02X angle_byte +:+ ")") a in
              (log_send ("       指令: " +:+ hex_str) a, None)
          end
        else (show_popup "发送失败" message a, None)
    end.

Definition process_received_data (data : bytes) (timestamp : string) (a : app)
  : app * option exn :=
  let hex_str := RobotProtocol.format_hex data in
  match RobotMobileApp.decode_response data with
  | Raise e => (a, Some e)
  | Ok (Some ((String _ _) as decoded)) =>
      (log_recv ("[" +:+ timestamp +:+ "] " +:+ decoded) a, None)
  | Ok _ =>
      (log_recv ("[" +:+ timestamp +:+ "] 接收数据: " +:+ hex_str) a, None)
  end.

End Handlers.

(** A frame as the robot expects it: bytes, header AA 55, and a last byte
    equal to the checksum of the bytes before it. *)
Definition valid_frame (frame : bytes) : Prop :=
  Forall is_byte frame /\
  take 2 frame = [0xAA; 0x55] /\
  last frame = Some (RobotProtocol.calculate_checksum (drop_last frame)).

(** An application object whose client is connected, used in the examples. *)
Definition connected_app : Handlers.app :=
  Handlers.mkApp connected_world 0 70 90 "" "" [].

(** Two frames that differ only in how the sum under the final [mod 256] is
    written. *)
Ltac same_frame :=
  repeat (apply (f_equal2 (@cons Z)); [reflexivity |]);
  apply (f_equal2 (@cons Z)); [| reflexivity];
  apply (f_equal (fun z => z mod 256)); lia.

(** * Properties *)

(** ** The result monad and bytes *)

Lemma is_byteb_true (x : Z) : is_byte x -> is_byteb x = true.
Proof.
  unfold is_byte, is_byteb. intros [Hlo Hhi].
  apply andb_true_intro. split; [apply Z.leb_le | apply Z.ltb_lt]; assumption.
Qed.

Lemma bytes1_byte (x : Z) : is_byte x -> bytes1 x = Ok [x].
Proof. intros H. unfold bytes1. now rewrite is_byteb_true. Qed.

Lemma bytes1_raises (x : Z) : ~ is_byte x -> bytes1 x = Raise ValueError.
Proof.
  intros H. unfold bytes1, is_byteb.
  destruct (Z.leb_spec 0 x), (Z.ltb_spec x 256); try reflexivity.
  exfalso. apply H. split; assumption.
Qed.

Lemma mod256_byte (x : Z) : is_byte (x mod 256).
Proof. unfold is_byte. apply Z.mod_pos_bound. lia. Qed.

Lemma clamp_range (lo hi x : Z) :
  lo <= hi -> lo <= RobotProtocol.clamp lo hi x <= hi.
Proof. unfold RobotProtocol.clamp. lia. Qed.

Lemma clamp_inside (lo hi x : Z) :
  lo <= x <= hi -> RobotProtocol.clamp lo hi x = x.
Proof. unfold RobotProtocol.clamp. lia. Qed.

(** ** calculate_checksum *)

Section Checksum.
Import RobotProtocol.

Lemma land_0xFF (x : Z) : Z.land x 0xFF = x mod 256.
Proof. change 0xFF with (Z.ones 8). rewrite Z.land_ones by lia. reflexivity. Qed.

(** The loop keeps the running sum reduced modulo 256. *)
Lemma checksum_loop_sum (l : bytes) :
  forall acc, is_byte acc -> checksum_loop acc l = (acc + byte_sum l) mod 256.
Proof.
  induction l as [| b l IH]; intros acc Hacc; simpl.
  - rewrite Z.add_0_r. symmetry. apply Z.mod_small. exact Hacc.
  - rewrite land_0xFF, IH by apply mod256_byte.
    rewrite Zplus_mod_idemp_l. f_equal. lia.
Qed.

Lemma checksum_loop_0 (l : bytes) : checksum_loop 0 l = byte_sum l mod 256.
Proof. rewrite checksum_loop_sum; [reflexivity | unfold is_byte; lia]. Qed.

Lemma calculate_checksum_header (rest : bytes) :
  calculate_checksum (0xAA :: 0x55 :: rest) = byte_sum rest mod 256.
Proof. unfold calculate_checksum. simpl. apply checksum_loop_0. Qed.

Lemma has_header_true (data : bytes) :
  has_header data = true -> exists rest, data = 0xAA :: 0x55 :: rest.
Proof.
  destruct data as [| b0 [| b1 rest]]; simpl; try discriminate.
  intros H. apply andb_prop in H as [H0 H1].
  apply Z.eqb_eq in H0, H1. subst. now exists rest.
Qed.

Lemma calculate_checksum_no_header (data : bytes) :
  (forall rest, data <> 0xAA :: 0x55 :: rest) ->
  calculate_checksum data = byte_sum data mod 256.
Proof.
  intros Hno. unfold calculate_checksum.
  destruct data as [| b data]; [reflexivity |].
  destruct (has_header (b :: data)) eqn:Hh.
  - apply has_header_true in Hh as [rest Hrest]. now apply Hno in Hrest.
  - apply checksum_loop_0.
Qed.

Lemma calculate_checksum_byte (data : bytes) : is_byte (calculate_checksum data).
Proof.
  unfold calculate_checksum. destruct data as [| b data].
  - unfold is_byte. lia.
  - rewrite checksum_loop_0. apply mod256_byte.
Qed.

(** C5. On an input that begins with the header bytes AA 55,
    [calculate_checksum] is the sum of the bytes after the header modulo 256;
    on an input that does not begin with AA 55 it is the sum of all the bytes
    modulo 256. *)
Theorem calculate_checksum_sums (data : bytes) :
  (forall rest, data = 0xAA :: 0x55 :: rest ->
     calculate_checksum data = byte_sum rest mod 256) /\
  ((forall rest, data <> 0xAA :: 0x55 :: rest) ->
     calculate_checksum data = byte_sum data mod 256).
Proof.
  split.
  - intros rest ->. apply calculate_checksum_header.
  - apply calculate_checksum_no_header.
Qed.

Lemma calculate_checksum_sums_witness :
  calculate_checksum [0xAA; 0x55; 0x04; 0x80; 0x00; 0x01] = 0x85 /\
  calculate_checksum [0x04; 0x80; 0x03; 0xFF] = 0x86.
Proof.
  split.
  - apply (proj1 (calculate_checksum_sums [0xAA; 0x55; 0x04; 0x80; 0x00; 0x01])
             [0x04; 0x80; 0x00; 0x01]).
    reflexivity.
  - apply (proj2 (calculate_checksum_sums [0x04; 0x80; 0x03; 0xFF])).
    intros rest H. discriminate H.
Defined.

End Checksum.

(** ** The encoders *)

Section Encoders.
Import RobotProtocol.

Lemma commands_in_range (direction : Z) :
  1 <= direction <= 6 -> commands !! direction = Some direction.
Proof.
  intros H.
  assert (direction = 1 \/ direction = 2 \/ direction = 3 \/ direction = 4 \/
          direction = 5 \/ direction = 6) as Hcases by lia.
  repeat (destruct Hcases as [-> | Hcases]; [reflexivity |]).
  subst. reflexivity.
Qed.

Lemma commands_out_of_range (direction : Z) :
  ~ 1 <= direction <= 6 -> commands !! direction = None.
Proof.
  intros H. unfold commands. simpl.
  rewrite !lookup_insert_ne by lia. apply lookup_empty.
Qed.

(** The frame built for a known direction and an id that fits a byte. *)
Lemma create_movement_command_frame (direction id_byte : Z) :
  1 <= direction <= 6 -> is_byte id_byte ->
  create_movement_command direction id_byte =
    Ok (Some [0xAA; 0x55; 0x04; 0x80; id_byte; direction;
              (0x04 + 0x80 + id_byte + direction) mod 256]).
Proof.
  intros Hd Hi. unfold create_movement_command.
  rewrite commands_in_range by exact Hd.
  rewrite (bytes1_byte id_byte) by exact Hi.
  rewrite (bytes1_byte direction) by (unfold is_byte; lia).
  cbn [mbind res_bind app].
  rewrite calculate_checksum_header.
  rewrite bytes1_byte by apply mod256_byte.
  cbn [byte_sum foldr mbind res_bind].
  replace (0x04 + (0x80 + (id_byte + (direction + 0))))
    with (0x04 + 0x80 + id_byte + direction) by lia.
  reflexivity.
Qed.

Lemma create_movement_command_rejects (direction id_byte : Z) :
  ~ 1 <= direction <= 6 -> create_movement_command direction id_byte = Ok None.
Proof.
  intros H. unfold create_movement_command.
  now rewrite commands_out_of_range.
Qed.

(** C1. For a direction in 1..6 and an id in 0..4, [create_movement_command]
    returns a frame of exactly 7 bytes: header AA 55, LEN 04, TYPE 80, and a
    last byte equal to [calculate_checksum] of bytes 2 to 5 of the frame. *)
Theorem create_movement_command_layout (direction id_byte : Z) :
  1 <= direction <= 6 -> 0 <= id_byte <= 4 ->
  exists frame : bytes,
    create_movement_command direction id_byte = Ok (Some frame) /\
    length frame = 7%nat /\
    frame !! 0%nat = Some 0xAA /\ frame !! 1%nat = Some 0x55 /\
    frame !! 2%nat = Some 0x04 /\ frame !! 3%nat = Some 0x80 /\
    frame !! 6%nat = Some (calculate_checksum (slice 2 6 frame)).
Proof.
  intros Hd Hi. eexists. split.
  - apply create_movement_command_frame; [exact Hd | unfold is_byte; lia].
  - repeat split. cbn [slice drop take Nat.sub lookup list_lookup].
    rewrite calculate_checksum_no_header.
    + cbn [byte_sum foldr]. do 2 f_equal. lia.
    + intros rest H. discriminate H.
Qed.

Lemma create_movement_command_layout_witness :
  exists frame : bytes,
    create_movement_command 3 4 = Ok (Some frame) /\
    length frame = 7%nat /\
    frame !! 0%nat = Some 0xAA /\ frame !! 1%nat = Some 0x55 /\
    frame !! 2%nat = Some 0x04 /\ frame !! 3%nat = Some 0x80 /\
    frame !! 6%nat = Some (calculate_checksum (slice 2 6 frame)).
Proof. apply (create_movement_command_layout 3 4); lia. Defined.

(** C4 as stated fails: the checksum byte of the frame for
    direction 1 and id 0 is not 86. *)
Lemma create_movement_command_1_0_not_86 :
  create_movement_command 1 0x00 <>
    Ok (Some [0xAA; 0x55; 0x04; 0x80; 0x00; 0x01; 0x86]).
Proof. vm_compute. discriminate. Qed.

(** C4, amended. [create_movement_command 1 0x00] returns exactly the 7 bytes
    AA 55 04 80 00 01 85: the checksum is (04 + 80 + 00 + 01) & FF = 85. *)
Theorem create_movement_command_1_0 :
  create_movement_command 1 0x00 =
    Ok (Some [0xAA; 0x55; 0x04; 0x80; 0x00; 0x01; 0x85]).
Proof. vm_compute. reflexivity. Qed.

(** The frame [create_speed_command] builds, for any integers [speed_rpm]
    and [accel_time]. *)
Lemma create_speed_command_frame (speed_rpm accel_time id_byte : Z) :
  is_byte id_byte ->
  create_speed_command speed_rpm accel_time id_byte =
    Ok [0xAA; 0x55; 0x07; 0x81; 0x01; id_byte;
        clamp 0 115 speed_rpm; clamp 0 255 accel_time;
        (0x07 + 0x81 + 0x01 + id_byte + clamp 0 115 speed_rpm
           + clamp 0 255 accel_time) mod 256].
Proof.
  intros Hi. unfold create_speed_command, py_int.
  pose proof (clamp_range 0 115 speed_rpm ltac:(lia)) as Hs.
  pose proof (clamp_range 0 255 accel_time ltac:(lia)) as Ha.
  rewrite (bytes1_byte id_byte) by exact Hi.
  rewrite (bytes1_byte (clamp 0 115 speed_rpm)) by (unfold is_byte; lia).
  rewrite (bytes1_byte (clamp 0 255 accel_time)) by (unfold is_byte; lia).
  cbn [mbind res_bind app].
  rewrite calculate_checksum_header.
  rewrite bytes1_byte by apply mod256_byte.
  cbn [byte_sum foldr mbind res_bind].
  replace (0x07 + (0x81 + (0x01 + (id_byte + (clamp 0 115 speed_rpm
             + (clamp 0 255 accel_time + 0))))))
    with (0x07 + 0x81 + 0x01 + id_byte + clamp 0 115 speed_rpm
            + clamp 0 255 accel_time) by lia.
  reflexivity.
Qed.

Lemma create_speed_command_raises (speed_rpm accel_time id_byte : Z) :
  ~ is_byte id_byte ->
  create_speed_command speed_rpm accel_time id_byte = Raise ValueError.
Proof.
  intros Hi. unfold create_speed_command.
  rewrite (bytes1_raises id_byte) by exact Hi. reflexivity.
Qed.

(** C2 as stated fails: the frame for speed 70, accel 0, id 0 does not
    have 10 bytes. *)
Lemma create_speed_command_not_10_bytes :
  ~ exists frame : bytes,
      create_speed_command 70 0 0x00 = Ok frame /\ length frame = 10%nat.
Proof.
  intros [frame [Hf Hlen]].
  rewrite create_speed_command_frame in Hf by (unfold is_byte; lia).
  injection Hf as <-. discriminate Hlen.
Qed.

(** C2, amended. For every speed in [-50, 300], accel in [-10, 400] and id
    byte, [create_speed_command] returns a frame of exactly 9 bytes with LEN
    07, TYPE 81 and SUBTYPE 01, whose speed byte is the speed clamped to
    [0, 115] and whose accel byte is the accel clamped to [0, 255]. *)
Theorem create_speed_command_layout (speed_rpm accel_time id_byte : Z) :
  -50 <= speed_rpm <= 300 -> -10 <= accel_time <= 400 -> is_byte id_byte ->
  exists frame : bytes,
    create_speed_command speed_rpm accel_time id_byte = Ok frame /\
    length frame = 9%nat /\
    frame !! 2%nat = Some 0x07 /\ frame !! 3%nat = Some 0x81 /\
    frame !! 4%nat = Some 0x01 /\
    frame !! 6%nat = Some (Z.max 0 (Z.min 115 speed_rpm)) /\
    frame !! 7%nat = Some (Z.max 0 (Z.min 255 accel_time)) /\
    0 <= Z.max 0 (Z.min 115 speed_rpm) <= 115 /\
    0 <= Z.max 0 (Z.min 255 accel_time) <= 255.
Proof.
  intros _ _ Hi. eexists. split.
  - apply create_speed_command_frame. exact Hi.
  - repeat split; lia.
Qed.

Lemma create_speed_command_layout_witness :
  exists frame : bytes,
    create_speed_command 300 (-10) 0x03 = Ok frame /\
    length frame = 9%nat /\
    frame !! 2%nat = Some 0x07 /\ frame !! 3%nat = Some 0x81 /\
    frame !! 4%nat = Some 0x01 /\
    frame !! 6%nat = Some (Z.max 0 (Z.min 115 300)) /\
    frame !! 7%nat = Some (Z.max 0 (Z.min 255 (-10))) /\
    0 <= Z.max 0 (Z.min 115 300) <= 115 /\
    0 <= Z.max 0 (Z.min 255 (-10)) <= 255.
Proof.
  apply (create_speed_command_layout 300 (-10) 0x03); unfold is_byte; lia.
Defined.

Lemma py_float_ok (k : Z) :
  Z.abs k < float_overflow_bound -> py_float k = Ok k.
Proof.
  intros H. unfold py_float.
  destruct (Z.ltb_spec (Z.abs k) float_overflow_bound); [reflexivity | lia].
Qed.

(** The frame [create_angle_command] builds for an integer angle that
    [float] accepts. *)
Lemma create_angle_command_frame (angle_degrees id_byte : Z) :
  Z.abs angle_degrees < float_overflow_bound -> is_byte id_byte ->
  create_angle_command angle_degrees id_byte =
    Ok [0xAA; 0x55; 0x07; 0x81; 0x02; id_byte; clamp 0 180 angle_degrees; 0x00;
        (0x07 + 0x81 + 0x02 + id_byte + clamp 0 180 angle_degrees) mod 256].
Proof.
  intros Ha Hi. unfold create_angle_command.
  rewrite py_float_ok by exact Ha. cbn [mbind res_bind].
  pose proof (clamp_range 0 180 angle_degrees ltac:(lia)) as Hc.
  rewrite Z.div_mul by lia.
  rewrite (clamp_inside 0 255 (clamp 0 180 angle_degrees)) by lia.
  rewrite (bytes1_byte id_byte) by exact Hi.
  rewrite (bytes1_byte (clamp 0 180 angle_degrees)) by (unfold is_byte; lia).
  cbn [mbind res_bind app].
  rewrite calculate_checksum_header.
  rewrite bytes1_byte by apply mod256_byte.
  cbn [byte_sum foldr mbind res_bind].
  replace (0x07 + (0x81 + (0x02 + (id_byte + (clamp 0 180 angle_degrees
             + (0x00 + 0))))))
    with (0x07 + 0x81 + 0x02 + id_byte + clamp 0 180 angle_degrees) by lia.
  reflexivity.
Qed.

End Encoders.

(** ** Python floats and the angle encoder *)

Section PythonFloats.
Import PyFloat RobotProtocol.

Lemma pow2_pos (c : Z) : 0 <= c -> 0 < 2 ^ c.
Proof. intros H. apply Z.pow_pos_nonneg; lia. Qed.

Lemma pow2_divide (a b : Z) : 0 <= a <= b -> (2 ^ a | 2 ^ b).
Proof.
  intros H. exists (2 ^ (b - a)).
  rewrite <- Z.pow_add_r by lia. f_equal. lia.
Qed.

Lemma pow2_le (a b : Z) : 0 <= a <= b -> 2 ^ a <= 2 ^ b.
Proof. intros H. apply Z.pow_le_mono_r; lia. Qed.

Lemma ulp_exp_nonneg (n : Z) : 0 <= ulp_exp n.
Proof. unfold ulp_exp. lia. Qed.

Lemma ulp_exp_mono (a b : Z) : a <= b -> ulp_exp a <= ulp_exp b.
Proof.
  intros H. unfold ulp_exp. pose proof (Z.log2_le_mono a b H). lia.
Qed.

Lemma representable_iff (n : Z) :
  representable n = true <-> 0 <= n /\ (2 ^ ulp_exp n | n).
Proof.
  unfold representable. pose proof (pow2_pos _ (ulp_exp_nonneg n)) as Hp.
  rewrite Bool.andb_true_iff, Z.leb_le, Z.eqb_eq, Z.mod_divide by lia. reflexivity.
Qed.

(** A multiple of a power of two that is below another multiple is below it
    by at least that power. *)
Lemma divide_gap (g a b : Z) : 0 < g -> (g | a) -> (g | b) -> a < b -> a <= b - g.
Proof.
  intros Hg [x ->] [y ->] Hlt.
  assert (x < y) as Hxy by (apply (Z.mul_lt_mono_pos_r g); assumption).
  assert (x * g <= (y - 1) * g) as H by (apply Z.mul_le_mono_nonneg_r; lia).
  lia.
Qed.

Lemma round_half_even_spec (p q : Z) :
  0 < q -> 2 * Z.abs (p - round_half_even p q * q) <= q.
Proof.
  intros Hq. unfold round_half_even.
  pose proof (Z.div_mod p q ltac:(lia)) as Hdm.
  pose proof (Z.mod_pos_bound p q Hq) as Hr.
  destruct (Z.ltb_spec (2 * (p mod q)) q); [lia |].
  destruct (Z.ltb_spec q (2 * (p mod q))); [lia |].
  destruct (Z.even (p / q)); lia.
Qed.

Lemma round_half_even_nearest (p q t : Z) :
  0 < q -> Z.abs (p - round_half_even p q * q) <= Z.abs (p - t * q).
Proof.
  intros Hq. pose proof (round_half_even_spec p q Hq) as H.
  destruct (Z.eq_dec t (round_half_even p q)) as [-> | Hne]; [lia |].
  assert (q <= Z.abs ((t - round_half_even p q) * q)) as Hd by nia.
  lia.
Qed.

Lemma round_half_even_range (p q : Z) :
  0 <= p -> 0 < q -> p / q <= round_half_even p q <= p / q + 1.
Proof.
  intros Hp Hq. unfold round_half_even.
  destruct (2 * (p mod q) <? q); [lia |].
  destruct (q <? 2 * (p mod q)); [lia |].
  destruct (Z.even (p / q)); lia.
Qed.

Lemma representable_scaled (m c : Z) :
  0 <= m < 2 ^ 53 -> 0 <= c -> representable (m * 2 ^ c) = true.
Proof.
  intros Hm Hc. apply representable_iff.
  pose proof (pow2_pos c Hc) as Hp. split; [nia |].
  destruct (Z.eq_dec m 0) as [-> | Hm0]; [apply Z.divide_0_r |].
  apply Z.divide_trans with (2 ^ c); [| apply Z.divide_factor_r].
  apply pow2_divide. split; [apply ulp_exp_nonneg |].
  unfold ulp_exp. rewrite Z.log2_mul_pow2 by lia.
  assert (Z.log2 m < 53) by (apply Z.log2_lt_pow2; lia). lia.
Qed.

Lemma round_double_representable (p q : Z) :
  0 <= p -> 0 < q -> representable (round_double p q) = true.
Proof.
  intros Hp Hq. unfold round_double.
  set (v := p / q). set (c := ulp_exp v).
  assert (0 <= v) as Hv by (apply Z.div_pos; lia).
  pose proof (ulp_exp_nonneg v) as Hc. fold c in Hc.
  pose proof (pow2_pos c Hc) as Hpc.
  pose proof (round_half_even_range p (q * 2 ^ c) Hp ltac:(nia)) as Hr.
  rewrite <- Z.div_div in Hr by lia. fold v in Hr.
  assert (v / 2 ^ c < 2 ^ 53) as Hlt.
  { apply Z.div_lt_upper_bound; [exact Hpc |].
    destruct (Z.eq_dec v 0) as [-> | Hv0]; [nia |].
    pose proof (Z.log2_spec v ltac:(lia)) as [_ Hs].
    rewrite <- Z.pow_add_r by lia.
    eapply Z.lt_le_trans; [exact Hs |].
    apply pow2_le. unfold c, ulp_exp. pose proof (Z.log2_nonneg v). lia. }
  assert (0 <= v / 2 ^ c) as Hge by (apply Z.div_pos; lia).
  destruct (Z.eq_dec (round_half_even p (q * 2 ^ c)) (2 ^ 53)) as [-> | Hne].
  - rewrite <- Z.pow_add_r by lia.
    replace (2 ^ (53 + c)) with (1 * 2 ^ (53 + c)) by lia.
    apply representable_scaled; lia.
  - apply representable_scaled; lia.
Qed.

Lemma round_double_nearest (p q f : Z) :
  0 <= p -> 0 < q -> representable f = true ->
  Z.abs (p - round_double p q * q) <= Z.abs (p - f * q).
Proof.
  intros Hp Hq Hf. unfold round_double.
  set (v := p / q). set (c := ulp_exp v).
  assert (0 <= v) as Hv by (apply Z.div_pos; lia).
  pose proof (ulp_exp_nonneg v) as Hc. fold c in Hc.
  pose proof (pow2_pos c Hc) as Hpc.
  apply representable_iff in Hf as [Hf0 Hfd].
  replace (round_half_even p (q * 2 ^ c) * 2 ^ c * q)
    with (round_half_even p (q * 2 ^ c) * (q * 2 ^ c)) by lia.
  destruct (Z.eq_dec (f mod 2 ^ c) 0) as [Hmod | Hmod].
  - apply Z.mod_divide in Hmod as [t ->]; [| lia].
    replace (t * 2 ^ c * q) with (t * (q * 2 ^ c)) by lia.
    apply round_half_even_nearest. nia.
  - assert (ulp_exp f < c) as Hlt.
    { destruct (Z_lt_dec (ulp_exp f) c) as [H | H]; [exact H | exfalso].
      apply Hmod. apply Z.mod_divide; [lia |].
      apply Z.divide_trans with (2 ^ ulp_exp f); [| exact Hfd].
      apply pow2_divide. lia. }
    assert (c = Z.log2 v - 52 /\ Z.log2 f < Z.log2 v) as [Hce Hlog].
    { unfold c, ulp_exp in *. lia. }
    assert (0 < v) as Hv0.
    { destruct (Z.eq_dec v 0) as [E | E]; [| lia].
      rewrite E in Hce. simpl in Hce. lia. }
    assert (f < 2 ^ Z.log2 v) as Hfb.
    { destruct (Z.eq_dec f 0) as [-> | Hf1];
        [apply pow2_pos, Z.log2_nonneg |].
      apply Z.log2_lt_pow2; lia. }
    pose proof (Z.log2_spec v Hv0) as [Hs _].
    pose proof (Z.mul_div_le p q Hq) as Hvq. fold v in Hvq.
    assert (2 ^ Z.log2 v = 2 ^ 52 * 2 ^ c) as Hb.
    { rewrite <- Z.pow_add_r by lia. f_equal. lia. }
    pose proof (round_half_even_nearest p (q * 2 ^ c) (2 ^ 52) ltac:(nia)) as Hn.
    replace (2 ^ 52 * (q * 2 ^ c)) with (2 ^ Z.log2 v * q) in Hn by (rewrite Hb; lia).
    assert (2 ^ Z.log2 v * q <= p) as H1 by nia.
    assert (f * q < 2 ^ Z.log2 v * q) as H2
      by (apply Z.mul_lt_mono_pos_r; assumption).
    lia.
Qed.

(** The doubles just below a positive double [T]: the nearest one is
    [T - g], where [g] is the unit in the last place of [T - 1]. *)
Lemma gap_below (T : Z) :
  representable T = true -> 0 < T ->
  let g := 2 ^ ulp_exp (T - 1) in
  0 < g /\ (g | T) /\ representable (T - g) = true /\
  forall f, representable f = true -> f < T -> f <= T - g.
Proof.
  intros HT HT0 g.
  pose proof (pow2_pos _ (ulp_exp_nonneg (T - 1))) as Hg. fold g in Hg.
  apply representable_iff in HT as [_ HTd].
  assert (g | T) as HgT.
  { apply Z.divide_trans with (2 ^ ulp_exp T); [| exact HTd].
    apply pow2_divide. split; [apply ulp_exp_nonneg | apply ulp_exp_mono; lia]. }
  assert (g <= T) as HgleT by (apply Z.divide_pos_le; assumption).
  split; [exact Hg |]. split; [exact HgT |]. split.
  - apply representable_iff. split; [lia |].
    apply Z.divide_trans with g.
    + apply pow2_divide. split; [apply ulp_exp_nonneg | apply ulp_exp_mono; lia].
    + apply Z.divide_sub_r; [exact HgT | apply Z.divide_refl].
  - intros f Hf Hlt. apply representable_iff in Hf as [Hf0 Hfd].
    pose proof (Z.log2_le_mono f (T - 1) ltac:(lia)) as Hmono.
    destruct (Z.eq_dec (Z.log2 f) (Z.log2 (T - 1))) as [He | Hne].
    + apply divide_gap; try assumption.
      unfold g, ulp_exp. rewrite <- He. exact Hfd.
    + assert (Z.log2 f < Z.log2 (T - 1)) as Hl by lia.
      pose proof (Z.log2_nonneg f) as Hn.
      assert (0 < T - 1) as HT1.
      { destruct (Z.eq_dec T 1) as [-> | E]; [simpl in Hl; lia | lia]. }
      assert (f < 2 ^ Z.log2 (T - 1)) as Hfb.
      { destruct (Z.eq_dec f 0) as [-> | Hf1];
          [apply pow2_pos, Z.log2_nonneg |].
        apply Z.log2_lt_pow2; lia. }
      pose proof (Z.log2_spec (T - 1) HT1) as [Hs _].
      assert (2 ^ Z.log2 (T - 1) <= T - g) as Hb.
      { apply divide_gap; try assumption; [| lia].
        apply pow2_divide. unfold ulp_exp. lia. }
      lia.
Qed.

(** Rounding does not go below a double that is below the exact value. *)
Lemma round_double_ge (p q K : Z) :
  0 <= p -> 0 < q -> representable K = true -> K * q <= p ->
  K <= round_double p q.
Proof.
  intros Hp Hq HK Hle.
  pose proof (round_double_nearest p q K Hp Hq HK) as Hn.
  destruct (Z_le_dec K (round_double p q)) as [H | H]; [exact H | exfalso].
  assert (round_double p q * q < K * q) as Hlt
    by (apply Z.mul_lt_mono_pos_r; lia).
  lia.
Qed.

(** Rounding stays below a double [T] when the exact value is more than
    half a gap below it. *)
Lemma round_double_below (p q T : Z) :
  0 <= p -> 0 < q -> representable T = true -> 0 < T ->
  2 ^ ulp_exp (T - 1) * q < 2 * (T * q - p) ->
  round_double p q <= T - 2 ^ ulp_exp (T - 1).
Proof.
  intros Hp Hq HT HT0 Hhalf.
  destruct (gap_below T HT HT0) as (Hg & _ & Hrep & Hgap).
  apply Hgap; [now apply round_double_representable |].
  pose proof (round_double_nearest p q _ Hp Hq Hrep) as Hn.
  destruct (Z_lt_dec (round_double p q) T) as [H | H]; [exact H | exfalso].
  assert (T * q <= round_double p q * q) as Hge
    by (apply Z.mul_le_mono_nonneg_r; lia).
  set (g := 2 ^ ulp_exp (T - 1)) in *.
  replace ((T - g) * q) with (T * q - g * q) in Hn by lia.
  assert (0 < g * q) as Hgq by nia.
  lia.
Qed.

(** The gap below [180 * y] is 128 or 256 times the gap below [y]. *)
Lemma gap_ratio (y : Z) :
  1 <= y ->
  2 ^ ulp_exp (180 * y * one - 1) = 128 * 2 ^ ulp_exp (y * one - 1) \/
  2 ^ ulp_exp (180 * y * one - 1) = 256 * 2 ^ ulp_exp (y * one - 1).
Proof.
  intros Hy. unfold one.
  assert (0 < 2 ^ 1074) as HU by (apply pow2_pos; lia).
  assert (2 ^ 1074 <= y * 2 ^ 1074) as HyU by nia.
  set (a := y * 2 ^ 1074 - 1).
  assert (2 ^ 1073 <= a) as Ha.
  { unfold a. replace (2 ^ 1074) with (2 * 2 ^ 1073) in * by
      (rewrite <- (Z.pow_succ_r 2 1073) by lia; reflexivity).
    assert (0 < 2 ^ 1073) by (apply pow2_pos; lia). lia. }
  assert (0 < a) as Ha0 by (assert (0 < 2 ^ 1073) by (apply pow2_pos; lia); lia).
  assert (1073 <= Z.log2 a) as HE by (apply Z.log2_le_pow2; assumption).
  pose proof (Z.log2_spec a Ha0) as [Hlo Hhi].
  set (E := Z.log2 a) in *.
  replace (180 * y * 2 ^ 1074 - 1) with (180 * a + 179) by (unfold a; lia).
  assert (0 < 2 ^ E) as HpE by (apply pow2_pos; lia).
  assert (E + 7 <= Z.log2 (180 * a + 179)) as H7.
  { apply Z.log2_le_pow2; [lia |].
    rewrite Z.pow_add_r by lia. change (2 ^ 7) with 128. lia. }
  assert (Z.log2 (180 * a + 179) < E + 9) as H9.
  { apply Z.log2_lt_pow2; [lia |].
    rewrite Z.pow_add_r by lia. change (2 ^ 9) with 512.
    rewrite Z.pow_succ_r in Hhi by lia. lia. }
  unfold ulp_exp.
  rewrite !Z.max_r by lia.
  destruct (Z.eq_dec (Z.log2 (180 * a + 179)) (E + 7)) as [-> | Hne].
  - left. replace (E + 7 - 52) with (7 + (E - 52)) by lia.
    rewrite Z.pow_add_r by lia. reflexivity.
  - right. replace (Z.log2 (180 * a + 179)) with (E + 8) by lia.
    replace (E + 8 - 52) with (8 + (E - 52)) by lia.
    rewrite Z.pow_add_r by lia. reflexivity.
Qed.

Lemma one_pos : 0 < one.
Proof. unfold one. apply pow2_pos. lia. Qed.

Lemma representable_int (m : Z) :
  0 <= m < 2 ^ 53 -> representable (m * one) = true.
Proof. intros H. unfold one. apply representable_scaled; lia. Qed.

(** Scaling a double in [0, 180] by [180.0] and back keeps its integer
    part: neither rounding crosses an integer. *)
Lemma scale_keeps_integer_part (n : Z) :
  representable n = true -> 0 <= n <= 180 * one ->
  round_double (n * 180) 1 < overflow_units /\
  representable (round_double (round_double (n * 180) 1) 180) = true /\
  round_double (round_double (n * 180) 1) 180 / one = n / one.
Proof.
  intros Hn Hr. pose proof one_pos as HU.
  set (k := n / one).
  assert (0 <= k <= 180) as Hk.
  { unfold k. split; [apply Z.div_pos; lia |].
    apply Z.div_le_upper_bound; lia. }
  assert (k * one <= n < (k + 1) * one) as Hkn.
  { unfold k. pose proof (Z.mul_div_le n one HU).
    pose proof (Z.mul_succ_div_gt n one HU). lia. }
  assert (2 ^ 53 = 9007199254740992) as H53 by reflexivity.
  pose proof (representable_int (k + 1) ltac:(lia)) as HT2.
  pose proof (representable_int (180 * (k + 1)) ltac:(lia)) as HT1.
  pose proof (representable_int k ltac:(lia)) as HK2.
  pose proof (representable_int (180 * k) ltac:(lia)) as HK1.
  destruct (gap_below _ HT2 ltac:(lia)) as (Hg & _ & _ & Hgap2).
  pose proof (Hgap2 n Hn ltac:(lia)) as Hnle.
  set (g := 2 ^ ulp_exp ((k + 1) * one - 1)) in *.
  pose proof (gap_ratio (k + 1) ltac:(lia)) as Hratio. fold g in Hratio.
  set (r1 := round_double (n * 180) 1).
  assert (180 * k * one <= r1) as Hlo1
    by (apply round_double_ge; [lia | lia | exact HK1 | lia]).
  assert (r1 <= 180 * (k + 1) * one - 2 ^ ulp_exp (180 * (k + 1) * one - 1))
    as Hhi1.
  { apply round_double_below; [lia | lia | exact HT1 | lia |]. lia. }
  set (r2 := round_double r1 180).
  assert (k * one <= r2) as Hlo2
    by (apply round_double_ge; [lia | lia | exact HK2 | lia]).
  assert (r2 <= (k + 1) * one - g) as Hhi2.
  { apply round_double_below; [lia | lia | exact HT2 | lia |].
    fold g. lia. }
  split; [| split].
  - assert (overflow_units = 2 ^ 1024 * one) as ->.
    { unfold overflow_units, one. rewrite <- Z.pow_add_r by lia. reflexivity. }
    assert (181 * 180 < 2 ^ 1024) as Hbig.
    { apply Z.lt_le_trans with (2 ^ 53); [lia | apply pow2_le; lia]. }
    assert (r1 < 181 * 180 * one) as Hlt by lia.
    eapply Z.lt_trans; [exact Hlt |].
    apply Z.mul_lt_mono_pos_r; assumption.
  - apply round_double_representable; lia.
  - symmetry. apply (Z.div_unique r2 one k (r2 - k * one)); lia.
Qed.


(** The clamped angle is a double between [0.0] and [180.0], also for NaN
    and the infinities. *)
Lemma clamp_angle_range (x : float) :
  is_double x ->
  exists n, clamp_angle x = Fin false n /\
            representable n = true /\ 0 <= n <= 180 * one.
Proof.
  intros Hx. pose proof one_pos as HU.
  assert (representable 0 = true) as H0 by reflexivity.
  assert (representable (180 * one) = true) as H180
    by (apply representable_int; lia).
  assert (lt (Fin false 0) (Fin false (180 * one)) = true) as Hlt0
    by (cbn [lt signed]; apply Z.ltb_lt; lia).
  unfold clamp_angle, of_nat_literal, py_max, py_min.
  change (0 * one) with 0.
  destruct x as [| [|] | s n].
  - change (lt NaN (Fin false (180 * one))) with false. cbv iota.
    rewrite Hlt0. exists (180 * one). split; [reflexivity |]. split; [assumption | lia].
  - change (lt (Inf true) (Fin false (180 * one))) with true. cbv iota.
    change (lt (Fin false 0) (Inf true)) with false. cbv iota.
    exists 0. split; [reflexivity |]. split; [assumption | lia].
  - change (lt (Inf false) (Fin false (180 * one))) with false. cbv iota.
    rewrite Hlt0. exists (180 * one). split; [reflexivity |]. split; [assumption | lia].
  - destruct Hx as [Hrep _].
    pose proof (proj1 (representable_iff n) Hrep) as [Hn0 _].
    destruct (lt (Fin s n) (Fin false (180 * one))) eqn:Hlt.
    + destruct (lt (Fin false 0) (Fin s n)) eqn:Hpos.
      * cbn [lt signed] in Hlt, Hpos.
        apply Z.ltb_lt in Hlt, Hpos.
        destruct s; cbn [signed] in *; [lia |].
        exists n. split; [reflexivity |]. split; [assumption | lia].
      * exists 0. split; [reflexivity |]. split; [assumption | lia].
    + rewrite Hlt0. exists (180 * one). split; [reflexivity |]. split; [assumption | lia].
Qed.

(** The frame [create_angle_command] builds for a float angle: the angle
    byte is the clamped angle truncated to an integer. *)
Lemma create_angle_command_float_frame (x : float) (id_byte : Z) :
  is_double x -> is_byte id_byte ->
  exists b,
    to_int (clamp_angle x) = Ok b /\ 0 <= b <= 180 /\
    create_angle_command_float x id_byte =
      Ok [0xAA; 0x55; 0x07; 0x81; 0x02; id_byte; b; 0x00;
          (0x07 + 0x81 + 0x02 + id_byte + b) mod 256].
Proof.
  intros Hx Hi. pose proof one_pos as HU.
  destruct (clamp_angle_range x Hx) as (n & Hc & Hrep & Hr).
  destruct (scale_keeps_integer_part n Hrep Hr) as (Hov & _ & Hint).
  assert (0 <= n / one <= 180) as Hb.
  { split; [apply Z.div_pos; lia | apply Z.div_le_upper_bound; lia]. }
  exists (n / one). rewrite Hc. split; [reflexivity |]. split; [exact Hb |].
  unfold create_angle_command_float. rewrite Hc.
  cbn [times_180].
  destruct (Z.ltb_spec (round_double (n * 180) 1) overflow_units); [| lia].
  cbn [over_180 to_int signed mbind res_bind]. rewrite Hint.
  rewrite (clamp_inside 0 255 (n / one)) by lia.
  rewrite (bytes1_byte id_byte) by exact Hi.
  rewrite (bytes1_byte (n / one)) by (unfold is_byte; lia).
  cbn [mbind res_bind app].
  rewrite calculate_checksum_header.
  rewrite bytes1_byte by apply mod256_byte.
  cbn [byte_sum foldr mbind res_bind].
  replace (0x07 + (0x81 + (0x02 + (id_byte + (n / one + (0x00 + 0))))))
    with (0x07 + 0x81 + 0x02 + id_byte + n / one) by lia.
  reflexivity.
Qed.

(** The double 90.7 is encoded as 90, the double just below 180.0 as 179,
    and NaN, which the clamp turns into 180.0, as 180. *)
Example create_angle_command_float_90_7 :
  create_angle_command_float (of_parts false 6382445096914125 (-46)) 0x00
    = Ok [0xAA; 0x55; 0x07; 0x81; 0x02; 0x00; 0x5A; 0x00; 0xE4].
Proof. vm_compute. reflexivity. Qed.

Example create_angle_command_float_below_180 :
  create_angle_command_float (of_parts false 6333186975989759 (-45)) 0x00
    = Ok [0xAA; 0x55; 0x07; 0x81; 0x02; 0x00; 0xB3; 0x00; 0x3D].
Proof. vm_compute. reflexivity. Qed.

Example create_angle_command_float_nan :
  create_angle_command_float NaN 0x00
    = Ok [0xAA; 0x55; 0x07; 0x81; 0x02; 0x00; 0xB4; 0x00; 0x3E].
Proof. vm_compute. reflexivity. Qed.

(** Called with an [int] that a double holds exactly, the encoder returns
    what it returns for the double of that value. *)
Lemma create_angle_command_int_float (k id_byte : Z) :
  Z.abs k < 2 ^ 53 -> is_byte id_byte ->
  create_angle_command k id_byte
    = create_angle_command_float (Fin (k <? 0) (Z.abs k * one)) id_byte.
Proof.
  intros Hk Hi. pose proof one_pos as HU.
  assert (is_double (Fin (k <? 0) (Z.abs k * one))) as Hd.
  { split; [apply representable_int; lia |].
    assert (overflow_units = 2 ^ 1024 * one) as ->.
    { unfold overflow_units, one. rewrite <- Z.pow_add_r by lia. reflexivity. }
    apply Z.mul_lt_mono_pos_r; [exact HU |].
    eapply Z.lt_le_trans; [exact Hk | apply pow2_le; lia]. }
  destruct (create_angle_command_float_frame _ id_byte Hd Hi)
    as (b & Hb & _ & ->).
  rewrite create_angle_command_frame; [| | exact Hi].
  2: { eapply Z.lt_le_trans; [exact Hk |]. unfold float_overflow_bound.
       assert (2 ^ 53 <= 2 ^ 970) by (apply pow2_le; lia).
       assert (2 ^ 1024 = 2 ^ 54 * 2 ^ 970) as ->
         by (rewrite <- Z.pow_add_r by lia; reflexivity).
       assert (2 ^ 54 = 18014398509481984) as -> by reflexivity. lia. }
  enough (b = clamp 0 180 k) as -> by reflexivity.
  revert Hb. unfold clamp_angle, of_nat_literal, py_max, py_min.
  change (0 * one) with 0. cbn [lt signed].
  destruct (Z.ltb_spec k 0) as [Hneg | Hpos]; cbn [signed].
  - destruct (Z.ltb_spec (- (Z.abs k * one)) (180 * one)); [| nia].
    cbn [lt signed]. destruct (Z.ltb_spec 0 (- (Z.abs k * one))); [nia |].
    cbn [to_int signed]. intros [= <-]. unfold clamp.
    rewrite Z.div_0_l by lia. lia.
  - destruct (Z.ltb_spec (Z.abs k * one) (180 * one)) as [Hlt | Hge];
      cbn [lt signed].
    + destruct (Z.ltb_spec 0 (Z.abs k * one)) as [Hp | Hz];
        cbn [to_int signed]; intros [= <-]; unfold clamp.
      * rewrite Z.div_mul by lia. nia.
      * rewrite Z.div_0_l by lia. nia.
    + destruct (Z.ltb_spec 0 (180 * one)); [| lia].
      cbn [to_int signed]. intros [= <-]. unfold clamp.
      rewrite Z.div_mul by lia. nia.
Qed.

End PythonFloats.

(** ** decode_response *)

Section Decoder.
Import RobotProtocol RobotMobileApp.

Example format_hex_movement :
  format_hex [0xAA; 0x55; 0x04; 0x80; 0x00; 0x01; 0x85] = "AA 55 04 80 00 01 85".
Proof. reflexivity. Qed.

Example decode_response_speed_message :
  decode_response [0xAA; 0x55; 0x07; 0x81; 0x01; 0x03; 0x73; 0x00]
    = Ok (Some "速度设置响应: 轮毂3 速度=115RPM, 加速时间=0*0.1ms").
Proof. reflexivity. Qed.

Example decode_response_angle_message :
  decode_response [0xAA; 0x55; 0x07; 0x81; 0x02; 0x00; 0x5A; 0x00]
    = Ok (Some "角度设置响应: 角度=90.0° (字节: 0x5A)").
Proof. reflexivity. Qed.

Example decode_response_movement_message :
  decode_response [0xAA; 0x55; 0x04; 0x80; 0x09; 0x07]
    = Ok (Some "运动响应: ID=9 未知").
Proof. reflexivity. Qed.

(** The command frame itself, with its checksum byte, is not a response. *)
Example decode_response_command_frame :
  decode_response [0xAA; 0x55; 0x04; 0x80; 0x00; 0x01; 0x85] = Ok None.
Proof. reflexivity. Qed.

Lemma decode_fields_short (data : bytes) :
  (length data < 6)%nat -> decode_fields data = Ok None.
Proof.
  intros H. unfold decode_fields.
  destruct (Nat.ltb_spec (length data) 6); [reflexivity | lia].
Qed.

Lemma decode_fields_long (b0 b1 b2 b3 b4 b5 : Z) (rest : bytes) :
  decode_fields (b0 :: b1 :: b2 :: b3 :: b4 :: b5 :: rest) =
    Ok (decode_cases b0 b1 b2 b3 b4 b5 rest).
Proof.
  unfold decode_fields, decode_cases, item_eq, item_ne, getitem.
  cbn [length Nat.ltb Nat.leb lookup list_lookup mbind res_bind orR andR ifR negb].
  destruct (b0 =? 0xAA); cbn [negb orb orR ifR]; [| reflexivity].
  destruct (b1 =? 0x55); cbn [negb orb orR ifR]; [| reflexivity].
  destruct rest as [| b6 [| b7 [| b8 rest]]];
    cbn [length Nat.eqb Nat.ltb Nat.leb lookup list_lookup mbind res_bind andR ifR];
    destruct (b2 =? 0x04), (b2 =? 0x07), (b3 =? 0x80), (b3 =? 0x81),
             (b4 =? 0x01), (b4 =? 0x02);
    reflexivity.
Qed.

(** Every input falls under one of the two lemmas above. *)
Lemma bytes_short_or_long (data : bytes) :
  (length data < 6)%nat \/
  exists b0 b1 b2 b3 b4 b5 rest, data = b0 :: b1 :: b2 :: b3 :: b4 :: b5 :: rest.
Proof.
  destruct data as [| b0 [| b1 [| b2 [| b3 [| b4 [| b5 rest]]]]]];
    try (left; simpl; lia).
  right. now exists b0, b1, b2, b3, b4, b5, rest.
Qed.

Lemma decode_fields_returns (data : bytes) : returns (decode_fields data).
Proof.
  destruct (bytes_short_or_long data) as [H | (b0 & b1 & b2 & b3 & b4 & b5 & rest & ->)].
  - exists None. now apply decode_fields_short.
  - eexists. apply decode_fields_long.
Qed.

Lemma decode_response_fields (data : bytes) (r : option Decoded) :
  decode_fields data = Ok r -> decode_response data = Ok (message <$> r).
Proof. intros H. unfold decode_response. rewrite H. reflexivity. Qed.

Lemma decode_response_None (data : bytes) :
  decode_response data = Ok None <-> decode_fields data = Ok None.
Proof.
  split; intros H.
  - destruct (decode_fields_returns data) as [r Hr].
    rewrite (decode_response_fields _ _ Hr) in H.
    destruct r; [discriminate H | exact Hr].
  - now rewrite (decode_response_fields _ _ H).
Qed.

(** C6 as stated fails: a 6-byte input with header AA 55 and TYPE 80
    but a LEN byte other than 04 is not decoded as a movement response. *)
Lemma decode_response_len_05_rejected :
  decode_fields [0xAA; 0x55; 0x05; 0x80; 0x00; 0x01] = Ok None /\
  decode_fields [0xAA; 0x55; 0x05; 0x80; 0x00; 0x01]
    <> Ok (Some (MovementResponse 0x00 0x01)) /\
  decode_response [0xAA; 0x55; 0x05; 0x80; 0x00; 0x01] = Ok None.
Proof. vm_compute. repeat split; discriminate. Qed.

(** C6, amended. For every 6-byte input whose first two bytes are AA 55,
    whose LEN byte at index 2 is 04 and whose TYPE byte at index 3 is 80,
    [decode_response] returns the movement response with id the byte at
    index 4 and direction code the byte at index 5. *)
Theorem decode_movement_response (data : bytes) (id_byte direction : Z) :
  length data = 6%nat ->
  data !! 0%nat = Some 0xAA -> data !! 1%nat = Some 0x55 ->
  data !! 2%nat = Some 0x04 -> data !! 3%nat = Some 0x80 ->
  data !! 4%nat = Some id_byte -> data !! 5%nat = Some direction ->
  decode_fields data = Ok (Some (MovementResponse id_byte direction)) /\
  decode_response data = Ok (Some (message (MovementResponse id_byte direction))).
Proof.
  intros Hlen H0 H1 H2 H3 H4 H5.
  destruct data as [| b0 [| b1 [| b2 [| b3 [| b4 [| b5 [| b6 rest]]]]]]];
    try discriminate Hlen.
  cbn in H0, H1, H2, H3, H4, H5.
  injection H0 as ->. injection H1 as ->. injection H2 as ->.
  injection H3 as ->. injection H4 as ->. injection H5 as ->.
  assert (decode_fields [0xAA; 0x55; 0x04; 0x80; id_byte; direction]
          = Ok (Some (MovementResponse id_byte direction))) as Hf.
  { rewrite decode_fields_long. reflexivity. }
  split; [exact Hf |]. now rewrite (decode_response_fields _ _ Hf).
Qed.

Lemma decode_movement_response_witness :
  decode_fields [0xAA; 0x55; 0x04; 0x80; 0x09; 0x07]
    = Ok (Some (MovementResponse 0x09 0x07)) /\
  decode_response [0xAA; 0x55; 0x04; 0x80; 0x09; 0x07]
    = Ok (Some (message (MovementResponse 0x09 0x07))).
Proof.
  apply (decode_movement_response [0xAA; 0x55; 0x04; 0x80; 0x09; 0x07]);
    reflexivity.
Defined.

Lemma decode_cases_unknown_shape (b0 b1 b2 b3 b4 b5 : Z) (rest : bytes) :
  ~ known_shape b2 b3 b4 -> decode_cases b0 b1 b2 b3 b4 b5 rest = None.
Proof.
  intros Hk. unfold decode_cases.
  destruct (negb (b0 =? 0xAA) || negb (b1 =? 0x55)); [reflexivity |].
  unfold known_shape in Hk.
  destruct (Z.eqb_spec b2 0x04), (Z.eqb_spec b2 0x07), (Z.eqb_spec b3 0x80),
           (Z.eqb_spec b3 0x81), (Z.eqb_spec b4 0x01), (Z.eqb_spec b4 0x02);
    destruct rest as [| b6 [| b7 [| b8 rest]]]; cbn [andb];
    try reflexivity; exfalso; apply Hk; tauto.
Qed.

Lemma decode_cases_bad_header (b0 b1 b2 b3 b4 b5 : Z) (rest : bytes) :
  b0 <> 0xAA \/ b1 <> 0x55 -> decode_cases b0 b1 b2 b3 b4 b5 rest = None.
Proof.
  intros H. unfold decode_cases.
  destruct (Z.eqb_spec b0 0xAA), (Z.eqb_spec b1 0x55);
    cbn [negb orb]; try reflexivity.
  exfalso. tauto.
Qed.

(** C7. [decode_response] returns none on every input of fewer than 6 bytes,
    on every input whose first byte is not AA or whose second byte is not 55,
    and on every input whose LEN, TYPE and SUBTYPE bytes match none of the
    three response shapes; and on every input whatsoever it returns without
    raising. *)
Theorem decode_response_rejects (data : bytes) :
  ((length data < 6)%nat \/
   data !! 0%nat <> Some 0xAA \/
   data !! 1%nat <> Some 0x55 \/
   (forall len_b type_b sub_b,
      data !! 2%nat = Some len_b -> data !! 3%nat = Some type_b ->
      data !! 4%nat = Some sub_b -> ~ known_shape len_b type_b sub_b) ->
   decode_response data = Ok None) /\
  returns (decode_response data).
Proof.
  split.
  - intros H. apply decode_response_None.
    destruct (bytes_short_or_long data)
      as [Hs | (b0 & b1 & b2 & b3 & b4 & b5 & rest & ->)].
    + now apply decode_fields_short.
    + rewrite decode_fields_long. f_equal.
      destruct H as [H | [H | [H | H]]].
      * simpl in H. lia.
      * apply decode_cases_bad_header. left. intros ->. now apply H.
      * apply decode_cases_bad_header. right. intros ->. now apply H.
      * apply decode_cases_unknown_shape. now apply H.
  - destruct (decode_fields_returns data) as [r Hr].
    eexists. apply (decode_response_fields _ _ Hr).
Qed.

Lemma decode_response_rejects_witness :
  decode_response [0xAA; 0x55; 0x07; 0x81; 0x03; 0x00; 0x10; 0x20] = Ok None /\
  decode_response [0xAA; 0x55; 0x04] = Ok None /\
  decode_response [0x55; 0xAA; 0x04; 0x80; 0x00; 0x01] = Ok None.
Proof.
  split; [| split].
  - apply (proj1 (decode_response_rejects
                    [0xAA; 0x55; 0x07; 0x81; 0x03; 0x00; 0x10; 0x20])).
    right. right. right. intros len_b type_b sub_b H2 H3 H4.
    injection H2 as <-. injection H3 as <-. injection H4 as <-.
    unfold known_shape. lia.
  - apply (proj1 (decode_response_rejects [0xAA; 0x55; 0x04])).
    left. simpl. lia.
  - apply (proj1 (decode_response_rejects [0x55; 0xAA; 0x04; 0x80; 0x00; 0x01])).
    right. left. simpl. intros H. discriminate H.
Defined.

(** C3 as stated fails: the decoder does not accept the output of the
    speed encoder, because of its trailing checksum byte. *)
Lemma decode_create_speed_command_none :
  exists frame : bytes,
    create_speed_command 70 0 0x00 = Ok frame /\
    decode_response frame = Ok None.
Proof. eexists. split; vm_compute; reflexivity. Qed.

(** C3, amended. For every speed, accel and id byte, the output of
    [create_speed_command] without its trailing checksum byte is decoded as
    the speed response with the speed clamped to [0, 115], the accel clamped
    to [0, 255] and the same id. The same round trip, again on the encoder
    output without its trailing checksum byte, holds for the angle shape,
    recovering the clamped, truncated angle [int(max(0.0, min(180.0, angle)))]
    for every float angle, and for the movement shape, recovering id and
    direction for every direction in 1..6. *)
Theorem response_shape_round_trip
    (speed accel direction id_byte : Z) (angle : PyFloat.float) :
  is_byte id_byte ->
  PyFloat.is_double angle ->
  1 <= direction <= 6 ->
  (exists frame : bytes,
     create_speed_command speed accel id_byte = Ok frame /\
     decode_fields (drop_last frame) =
       Ok (Some (SpeedResponse id_byte (Z.max 0 (Z.min 115 speed))
                               (Z.max 0 (Z.min 255 accel))))) /\
  (exists (frame : bytes) (truncated : Z),
     create_angle_command_float angle id_byte = Ok frame /\
     PyFloat.to_int (clamp_angle angle) = Ok truncated /\
     decode_fields (drop_last frame) =
       Ok (Some (AngleResponse truncated truncated))) /\
  (exists frame : bytes,
     create_movement_command direction id_byte = Ok (Some frame) /\
     decode_fields (drop_last frame) =
       Ok (Some (MovementResponse id_byte direction))).
Proof.
  intros Hi Ha Hd. split; [| split].
  - eexists. split; [apply create_speed_command_frame; exact Hi |].
    cbn [drop_last length Nat.sub take]. rewrite decode_fields_long. reflexivity.
  - destruct (create_angle_command_float_frame angle id_byte Ha Hi)
      as (b & Hb & _ & Hf).
    eexists. exists b. split; [exact Hf |]. split; [exact Hb |].
    cbn [drop_last length Nat.sub take]. rewrite decode_fields_long.
    cbn [decode_cases Z.eqb Pos.eqb negb orb andb].
    unfold decode_angle_from_byte. rewrite Z.div_mul by lia. reflexivity.
  - eexists. split; [apply create_movement_command_frame; [exact Hd | exact Hi] |].
    cbn [drop_last length Nat.sub take]. rewrite decode_fields_long. reflexivity.
Qed.

Lemma response_shape_round_trip_witness :
  (exists frame : bytes,
     create_speed_command 300 (-10) 0x03 = Ok frame /\
     decode_fields (drop_last frame) =
       Ok (Some (SpeedResponse 0x03 (Z.max 0 (Z.min 115 300))
                               (Z.max 0 (Z.min 255 (-10)))))) /\
  (exists (frame : bytes) (truncated : Z),
     create_angle_command_float
       (PyFloat.of_parts false 6382445096914125 (-46)) 0x03 = Ok frame /\
     PyFloat.to_int
       (clamp_angle (PyFloat.of_parts false 6382445096914125 (-46)))
       = Ok truncated /\
     decode_fields (drop_last frame) =
       Ok (Some (AngleResponse truncated truncated))) /\
  (exists frame : bytes,
     create_movement_command 2 0x03 = Ok (Some frame) /\
     decode_fields (drop_last frame) = Ok (Some (MovementResponse 0x03 2))).
Proof.
  apply (response_shape_round_trip 300 (-10) 2 0x03
           (PyFloat.of_parts false 6382445096914125 (-46))).
  - unfold is_byte. lia.
  - split; vm_compute; reflexivity.
  - lia.
Defined.

(** The angle 90.7 comes back as 90. *)
Example angle_round_trip_90_7 :
  decode_fields
    (drop_last [0xAA; 0x55; 0x07; 0x81; 0x02; 0x00; 0x5A; 0x00; 0xE4])
    = Ok (Some (AngleResponse 90 90)) /\
  PyFloat.to_int (clamp_angle (PyFloat.of_parts false 6382445096914125 (-46)))
    = Ok 90.
Proof. split; vm_compute; reflexivity. Qed.

Lemma decode_cases_agree (b0 b1 b2 b3 b4 b5 : Z) (rest1 rest2 : bytes) :
  length rest1 = length rest2 ->
  rest1 !! 0%nat = rest2 !! 0%nat -> rest1 !! 1%nat = rest2 !! 1%nat ->
  decode_cases b0 b1 b2 b3 b4 b5 rest1 = decode_cases b0 b1 b2 b3 b4 b5 rest2.
Proof.
  intros Hlen H6 H7. unfold decode_cases.
  destruct rest1 as [| x6 [| x7 [| x8 rest1]]];
    destruct rest2 as [| y6 [| y7 [| y8 rest2]]];
    try discriminate Hlen; try reflexivity.
  cbn in H6, H7. injection H6 as ->. injection H7 as ->. reflexivity.
Qed.

Lemma decode_cases_acceptance (b0 b1 b2 b3 b4 b5 c5 : Z) (rest1 rest2 : bytes) :
  length rest1 = length rest2 ->
  decode_cases b0 b1 b2 b3 b4 b5 rest1 = None <->
  decode_cases b0 b1 b2 b3 b4 c5 rest2 = None.
Proof.
  intros Hlen. unfold decode_cases.
  destruct rest1 as [| x6 [| x7 [| x8 rest1]]];
    destruct rest2 as [| y6 [| y7 [| y8 rest2]]];
    try discriminate Hlen;
    destruct (negb (b0 =? 0xAA) || negb (b1 =? 0x55)),
             (b2 =? 0x04), (b2 =? 0x07), (b3 =? 0x80), (b3 =? 0x81),
             (b4 =? 0x01), (b4 =? 0x02);
    cbn [andb]; split; intros H; try reflexivity; try discriminate H.
Qed.

Lemma decode_cases_lengths (b0 b1 b2 b3 b4 b5 : Z) (rest : bytes) :
  decode_cases b0 b1 b2 b3 b4 b5 rest <> None ->
  length rest = 0%nat \/ length rest = 2%nat.
Proof.
  unfold decode_cases.
  destruct (negb (b0 =? 0xAA) || negb (b1 =? 0x55)); [congruence |].
  destruct rest as [| x6 [| x7 [| x8 rest]]]; simpl; intros H;
    try congruence; auto.
Qed.

(** Two inputs of the same length are short together or long together. *)
Lemma same_length_long (b0 b1 b2 b3 b4 b5 : Z) (rest1 d2 : bytes) :
  length (b0 :: b1 :: b2 :: b3 :: b4 :: b5 :: rest1) = length d2 ->
  exists c0 c1 c2 c3 c4 c5 rest2,
    d2 = c0 :: c1 :: c2 :: c3 :: c4 :: c5 :: rest2 /\
    length rest1 = length rest2.
Proof.
  intros Hlen.
  destruct d2 as [| c0 [| c1 [| c2 [| c3 [| c4 [| c5 rest2]]]]]];
    try discriminate Hlen.
  exists c0, c1, c2, c3, c4, c5, rest2. split; [reflexivity |].
  simpl in Hlen. lia.
Qed.

(** C10. [decode_response] reads no checksum. Two inputs of equal length that
    agree on the bytes at indices 0 to 7 are decoded to the same result;
    whether an input is accepted depends only on its length and on the bytes
    at indices 0 to 4 (header, LEN, TYPE, SUBTYPE); and an accepted input has
    6 or 8 bytes, all of which are header, LEN, TYPE, SUBTYPE, id or payload,
    so no slot is left for a checksum. *)
Theorem decode_response_reads_no_checksum (d1 d2 : bytes) :
  length d1 = length d2 ->
  ((forall i, (i < 8)%nat -> d1 !! i = d2 !! i) ->
     decode_response d1 = decode_response d2) /\
  ((forall i, (i < 5)%nat -> d1 !! i = d2 !! i) ->
     (decode_response d1 = Ok None <-> decode_response d2 = Ok None)) /\
  (decode_response d1 <> Ok None -> length d1 = 6%nat \/ length d1 = 8%nat).
Proof.
  intros Hlen.
  destruct (bytes_short_or_long d1)
    as [Hs | (b0 & b1 & b2 & b3 & b4 & b5 & rest1 & ->)].
  - assert (decode_response d1 = Ok None) as H1
      by (apply decode_response_None, decode_fields_short; exact Hs).
    assert (decode_response d2 = Ok None) as H2
      by (apply decode_response_None, decode_fields_short; lia).
    rewrite H1, H2. repeat split; intros; congruence.
  - destruct (same_length_long _ _ _ _ _ _ _ _ Hlen)
      as (c0 & c1 & c2 & c3 & c4 & c5 & rest2 & -> & Hrest).
    split; [| split].
    + intros Hagree.
      pose proof (Hagree 0%nat ltac:(lia)) as E0.
      pose proof (Hagree 1%nat ltac:(lia)) as E1.
      pose proof (Hagree 2%nat ltac:(lia)) as E2.
      pose proof (Hagree 3%nat ltac:(lia)) as E3.
      pose proof (Hagree 4%nat ltac:(lia)) as E4.
      pose proof (Hagree 5%nat ltac:(lia)) as E5.
      pose proof (Hagree 6%nat ltac:(lia)) as E6.
      pose proof (Hagree 7%nat ltac:(lia)) as E7.
      cbn in E0, E1, E2, E3, E4, E5, E6, E7.
      injection E0 as <-. injection E1 as <-. injection E2 as <-.
      injection E3 as <-. injection E4 as <-. injection E5 as <-.
      unfold decode_response. rewrite !decode_fields_long.
      now rewrite (decode_cases_agree _ _ _ _ _ _ rest1 rest2).
    + intros Hagree.
      pose proof (Hagree 0%nat ltac:(lia)) as E0.
      pose proof (Hagree 1%nat ltac:(lia)) as E1.
      pose proof (Hagree 2%nat ltac:(lia)) as E2.
      pose proof (Hagree 3%nat ltac:(lia)) as E3.
      pose proof (Hagree 4%nat ltac:(lia)) as E4.
      cbn in E0, E1, E2, E3, E4.
      injection E0 as <-. injection E1 as <-. injection E2 as <-.
      injection E3 as <-. injection E4 as <-.
      rewrite !decode_response_None, !decode_fields_long.
      pose proof (decode_cases_acceptance b0 b1 b2 b3 b4 b5 c5 rest1 rest2 Hrest)
        as Hacc.
      split; intros H; injection H as H; f_equal; now apply Hacc.
    + intros Hne. rewrite decode_response_None, decode_fields_long in Hne.
      destruct (decode_cases_lengths b0 b1 b2 b3 b4 b5 rest1) as [H | H].
      * intros Hc. apply Hne. now rewrite Hc.
      * left. simpl. lia.
      * right. simpl. lia.
Qed.

Lemma decode_response_reads_no_checksum_witness :
  decode_response [0xAA; 0x55; 0x07; 0x81; 0x01; 0x03; 0x73; 0x00; 0xFA]
    = decode_response [0xAA; 0x55; 0x07; 0x81; 0x01; 0x03; 0x73; 0x00; 0x00] /\
  (decode_response [0xAA; 0x55; 0x07; 0x81; 0x01; 0x03; 0x73; 0x00] = Ok None <->
   decode_response [0xAA; 0x55; 0x07; 0x81; 0x01; 0xFF; 0x00; 0x99] = Ok None).
Proof.
  split.
  - apply (proj1 (decode_response_reads_no_checksum
                    [0xAA; 0x55; 0x07; 0x81; 0x01; 0x03; 0x73; 0x00; 0xFA]
                    [0xAA; 0x55; 0x07; 0x81; 0x01; 0x03; 0x73; 0x00; 0x00] eq_refl)).
    intros i Hi.
    do 8 (destruct i as [| i]; [reflexivity |]). lia.
  - apply (proj1 (proj2 (decode_response_reads_no_checksum
                    [0xAA; 0x55; 0x07; 0x81; 0x01; 0x03; 0x73; 0x00]
                    [0xAA; 0x55; 0x07; 0x81; 0x01; 0xFF; 0x00; 0x99] eq_refl))).
    intros i Hi.
    do 5 (destruct i as [| i]; [reflexivity |]). lia.
Defined.

End Decoder.

(** ** TCPClient *)

Section Client.
Import TCPClient.

(** A receive iteration never writes a field of the client object. *)
Lemma receive_iteration_self (o : recv_outcome) (w : world) :
  self (fst (receive_iteration o w)) = self w.
Proof.
  unfold receive_iteration.
  destruct (is_connected (self w)), (socket (self w)); try reflexivity.
  destruct o as [data | |]; try reflexivity.
  destruct data as [| b data], (receive_callback (self w)) as [cb |];
    try reflexivity.
  destruct (cb (b :: data)); reflexivity.
Qed.

Lemma receive_loop_self (os : list recv_outcome) :
  forall w, self (fst (receive_loop os w)) = self w.
Proof.
  induction os as [| o os IH]; intros w; simpl; [reflexivity |].
  pose proof (receive_iteration_self o w) as Hs.
  destruct (receive_iteration o w) as [w' [|]]; simpl in Hs.
  - rewrite IH. exact Hs.
  - exact Hs.
Qed.

Lemma receive_iteration_error (w : world) :
  snd (receive_iteration RecvError w) = Returned.
Proof.
  unfold receive_iteration.
  destruct (is_connected (self w)), (socket (self w)); reflexivity.
Qed.

(** Without a socket the loop condition fails and nothing is done. *)
Lemma receive_iteration_no_socket (o : recv_outcome) (w : world) :
  socket (self w) = None -> receive_iteration o w = (w, Returned).
Proof.
  intros H. unfold receive_iteration. rewrite H.
  destruct (is_connected (self w)); reflexivity.
Qed.

Lemma disconnect_no_socket (c : bool) (w : world) :
  socket (self (disconnect c w)) = None.
Proof.
  unfold disconnect. destruct (socket (self w)) eqn:Hs; [reflexivity | exact Hs].
Qed.

Lemma send_data_no_socket (data : bytes) (o : send_outcome) (w : world) :
  socket (self w) = None -> send_data data o w = (w, (false, "未连接")).
Proof.
  intros H. unfold send_data. rewrite H.
  destruct (is_connected (self w)); reflexivity.
Qed.

(** Only [connect] assigns a socket object to [self.socket]. *)
Lemma step_no_socket (ev : event) (w : world) :
  is_connect ev = false ->
  socket (self w) = None -> socket (self (step ev w)) = None.
Proof.
  intros Hev Hs. destruct ev as [cb | h p o | c | d o | o]; simpl.
  - exact Hs.
  - discriminate Hev.
  - apply disconnect_no_socket.
  - now rewrite send_data_no_socket.
  - destruct (live_threads w); [exact Hs |].
    now rewrite receive_iteration_no_socket.
Qed.

Lemma run_no_socket (evs : list event) :
  forall w,
    Forall (fun ev => is_connect ev = false) evs ->
    socket (self w) = None -> socket (self (run evs w)) = None.
Proof.
  induction evs as [| ev evs IH]; intros w Hevs Hs; [exact Hs |].
  inversion Hevs as [| ? ? Hev Hrest]; subst.
  unfold run. simpl. apply IH; [exact Hrest |].
  now apply step_no_socket.
Qed.

(** C8. After [disconnect], and whatever the caller's thread and the receive
    threads do next short of a new [connect], every [send_data] returns
    (False, "未连接"), the source's message for "not connected", and
    leaves the whole process as it was: no socket operation is recorded and
    the connection state is unchanged. *)
Theorem send_data_after_disconnect
    (w : world) (close_raises : bool) (evs : list event)
    (data_bytes : bytes) (o : send_outcome) :
  Forall (fun ev => is_connect ev = false) evs ->
  let w' := run evs (disconnect close_raises w) in
  send_data data_bytes o w' = (w', (false, "未连接")) /\
  ops (fst (send_data data_bytes o w')) = ops w' /\
  self (fst (send_data data_bytes o w')) = self w'.
Proof.
  intros Hevs w'.
  assert (send_data data_bytes o w' = (w', (false, "未连接"))) as Hsend.
  { apply send_data_no_socket. apply run_no_socket; [exact Hevs |].
    apply disconnect_no_socket. }
  rewrite Hsend. repeat split.
Qed.

Lemma send_data_after_disconnect_witness :
  let w' := run [EvSend [0xAA; 0x55] SendSucceeds; EvReceive RecvTimeout;
                 EvDisconnect true]
                (disconnect false connected_world) in
  send_data [0xAA; 0x55; 0x04; 0x80; 0x00; 0x01; 0x85] SendSucceeds w'
    = (w', (false, "未连接")) /\
  ops (fst (send_data [0xAA; 0x55; 0x04; 0x80; 0x00; 0x01; 0x85] SendSucceeds w'))
    = ops w' /\
  self (fst (send_data [0xAA; 0x55; 0x04; 0x80; 0x00; 0x01; 0x85] SendSucceeds w'))
    = self w'.
Proof.
  apply (send_data_after_disconnect connected_world false
           [EvSend [0xAA; 0x55] SendSucceeds; EvReceive RecvTimeout;
            EvDisconnect true]).
  repeat constructor.
Defined.

Lemma receive_loop_error (os : list recv_outcome) (w : world) :
  receive_loop (RecvError :: os) w =
    (fst (receive_iteration RecvError w), Returned).
Proof.
  simpl. pose proof (receive_iteration_error w) as H.
  destruct (receive_iteration RecvError w) as [w' st]. simpl in H. now subst.
Qed.

Lemma connect_keeps_connected (h : string) (p : Z) (o : connect_outcome)
    (w : world) :
  is_connected (self w) = true ->
  is_connected (self (fst (connect h p o w))) = true.
Proof. intros H. destruct o; simpl; try exact H; reflexivity. Qed.

Lemma step_receive_self (o : recv_outcome) (w : world) :
  self (step (EvReceive o) w) = self w.
Proof.
  simpl. destruct (live_threads w); [reflexivity |].
  pose proof (receive_iteration_self o w) as H.
  destruct (receive_iteration o w) as [w' [|]]; exact H.
Qed.

(** C9. An iteration of [_receive_loop] whose read fails with an error other
    than a time-out makes the loop return, and no iteration of the loop
    changes [is_connected]; the only steps of the process that take
    [is_connected] from true to false are [send_data] and [disconnect]. *)
Theorem receive_loop_keeps_is_connected
    (w : world) (os : list recv_outcome) (ev : event) :
  receive_loop (RecvError :: os) w
    = (fst (receive_iteration RecvError w), Returned) /\
  is_connected (self (fst (receive_iteration RecvError w)))
    = is_connected (self w) /\
  is_connected (self (fst (receive_loop os w))) = is_connected (self w) /\
  (is_connected (self w) = true ->
   is_connected (self (step ev w)) = false ->
   (exists data_bytes o, ev = EvSend data_bytes o) \/
   (exists close_raises, ev = EvDisconnect close_raises)).
Proof.
  split; [apply receive_loop_error |].
  split; [now rewrite receive_iteration_self |].
  split; [now rewrite receive_loop_self |].
  intros Hon Hoff.
  destruct ev as [cb | h p o | c | d o | o].
  - simpl in Hoff. congruence.
  - simpl in Hoff. rewrite connect_keeps_connected in Hoff by exact Hon.
    discriminate Hoff.
  - right. now exists c.
  - left. now exists d, o.
  - rewrite step_receive_self in Hoff. congruence.
Qed.

Lemma receive_loop_keeps_is_connected_witness :
  (exists data_bytes o,
     EvSend [0x01] (SendRaises "broken pipe") = EvSend data_bytes o) \/
  (exists close_raises,
     EvSend [0x01] (SendRaises "broken pipe") = EvDisconnect close_raises).
Proof.
  apply (proj2 (proj2 (proj2 (receive_loop_keeps_is_connected
           connected_world [] (EvSend [0x01] (SendRaises "broken pipe")))))).
  - reflexivity.
  - reflexivity.
Defined.

(** The receive loop of a connected client returns on a read error and
    leaves the client marked as connected. *)
Example receive_loop_error_connected :
  let r := receive_loop [RecvTimeout; RecvData [0x01]; RecvError] connected_world in
  snd r = Returned /\ is_connected (self (fst r)) = true.
Proof. split; reflexivity. Qed.

End Client.

(** * Further properties of the codec *)

Section EncoderEdges.
Import RobotProtocol.

Lemma is_byteb_false (x : Z) : ~ is_byte x -> is_byteb x = false.
Proof.
  intros H. unfold is_byteb.
  destruct (Z.leb_spec 0 x), (Z.ltb_spec x 256); try reflexivity.
  exfalso. apply H. split; assumption.
Qed.

Lemma is_byte_dec (x : Z) : {is_byte x} + {~ is_byte x}.
Proof.
  unfold is_byte.
  destruct (Z_le_dec 0 x), (Z_lt_dec x 256); [left | right | right | right]; lia.
Qed.

(** X1. [create_movement_command] in closed form, for all integers: an
    unknown direction gives [None] whatever the id is (the direction is
    tested first); a known direction with an id outside 0..255 raises
    [ValueError] at [bytes([id_byte])]; otherwise the 7-byte frame. *)
Theorem create_movement_command_closed_form (direction id_byte : Z) :
  create_movement_command direction id_byte =
    if (1 <=? direction) && (direction <=? 6)
    then if is_byteb id_byte
         then Ok (Some [0xAA; 0x55; 0x04; 0x80; id_byte; direction;
                        (0x04 + 0x80 + id_byte + direction) mod 256])
         else Raise ValueError
    else Ok None.
Proof.
  destruct (Z.leb_spec 1 direction), (Z.leb_spec direction 6); cbn [andb];
    try (apply create_movement_command_rejects; lia).
  destruct (is_byte_dec id_byte) as [Hi | Hi].
  - rewrite (is_byteb_true _ Hi). apply create_movement_command_frame; [lia | exact Hi].
  - rewrite (is_byteb_false _ Hi). unfold create_movement_command.
    rewrite commands_in_range by lia.
    rewrite (bytes1_raises id_byte) by exact Hi. reflexivity.
Qed.

(** X2. [create_speed_command] in closed form, for all integers: no speed
    and no accel makes it fail; it raises [ValueError] exactly when the id
    is outside 0..255, and otherwise returns the 9-byte frame with the
    clamped speed and accel. *)
Theorem create_speed_command_closed_form (speed_rpm accel_time id_byte : Z) :
  create_speed_command speed_rpm accel_time id_byte =
    if is_byteb id_byte
    then Ok [0xAA; 0x55; 0x07; 0x81; 0x01; id_byte;
             Z.max 0 (Z.min 115 speed_rpm); Z.max 0 (Z.min 255 accel_time);
             (0x07 + 0x81 + 0x01 + id_byte + Z.max 0 (Z.min 115 speed_rpm)
                + Z.max 0 (Z.min 255 accel_time)) mod 256]
    else Raise ValueError.
Proof.
  destruct (is_byte_dec id_byte) as [Hi | Hi].
  - rewrite (is_byteb_true _ Hi). now apply create_speed_command_frame.
  - rewrite (is_byteb_false _ Hi). now apply create_speed_command_raises.
Qed.

Lemma py_float_overflow (k : Z) :
  float_overflow_bound <= Z.abs k -> py_float k = Raise OverflowError.
Proof.
  intros H. unfold py_float.
  destruct (Z.ltb_spec (Z.abs k) float_overflow_bound); [lia | reflexivity].
Qed.

(** X3. [create_angle_command] in closed form, for an integer angle: it
    raises [OverflowError] when [float] cannot hold the angle, [ValueError]
    when the id is outside 0..255, and otherwise returns the 9-byte frame
    AA 55 07 81 02 id angle 00 checksum, whose angle byte is the angle
    clamped to 0..180, so that the bytes 181..255 are never produced. *)
Theorem create_angle_command_closed_form (angle_degrees id_byte : Z) :
  create_angle_command angle_degrees id_byte =
    (if Z.abs angle_degrees <? float_overflow_bound
     then if is_byteb id_byte
          then Ok [0xAA; 0x55; 0x07; 0x81; 0x02; id_byte;
                   Z.max 0 (Z.min 180 angle_degrees); 0x00;
                   (0x07 + 0x81 + 0x02 + id_byte
                      + Z.max 0 (Z.min 180 angle_degrees)) mod 256]
          else Raise ValueError
     else Raise OverflowError) /\
  0 <= Z.max 0 (Z.min 180 angle_degrees) <= 180.
Proof.
  split; [| lia].
  destruct (Z.ltb_spec (Z.abs angle_degrees) float_overflow_bound) as [Ha | Ha].
  - destruct (is_byte_dec id_byte) as [Hi | Hi].
    + rewrite (is_byteb_true _ Hi). now apply create_angle_command_frame.
    + rewrite (is_byteb_false _ Hi). unfold create_angle_command.
      rewrite py_float_ok by exact Ha. cbn [mbind res_bind].
      rewrite (bytes1_raises id_byte) by exact Hi. reflexivity.
  - unfold create_angle_command. rewrite py_float_overflow by exact Ha.
    reflexivity.
Qed.

End EncoderEdges.

Section FrameIntegrity.
Import RobotProtocol RobotMobileApp.

Lemma byte_sum_app (l1 l2 : bytes) :
  byte_sum (l1 ++ l2) = byte_sum l1 + byte_sum l2.
Proof.
  induction l1 as [| b l1 IH]; simpl; [reflexivity |].
  unfold byte_sum in *. simpl. rewrite IH. lia.
Qed.

Lemma byte_sum_permutation (l1 l2 : bytes) :
  l1 ≡ₚ l2 -> byte_sum l1 = byte_sum l2.
Proof.
  induction 1 as [| x l1 l2 _ IH | x y l | l1 l2 l3 _ IH1 _ IH2];
    unfold byte_sum in *; simpl; lia.
Qed.

(** The frames the three encoders can return, whatever the arguments. *)
Lemma encoder_frames (speed accel angle direction id_byte : Z) (frame : bytes) :
  create_speed_command speed accel id_byte = Ok frame \/
  create_angle_command angle id_byte = Ok frame \/
  create_movement_command direction id_byte = Ok (Some frame) ->
  is_byte id_byte /\
  exists body : bytes,
    Forall is_byte body /\ (length body = 4 \/ length body = 6)%nat /\
    frame = 0xAA :: 0x55 :: body ++ [byte_sum body mod 256].
Proof.
  intros H.
  rewrite create_speed_command_closed_form in H.
  rewrite (proj1 (create_angle_command_closed_form angle id_byte)) in H.
  rewrite create_movement_command_closed_form in H.
  assert (is_byte id_byte) as Hi.
  { destruct (is_byte_dec id_byte) as [Hi | Hi]; [exact Hi | exfalso].
    rewrite (is_byteb_false _ Hi) in H.
    destruct H as [H | [H | H]]; try discriminate H.
    - destruct (Z.abs angle <? float_overflow_bound); discriminate H.
    - destruct ((1 <=? direction) && (direction <=? 6)); discriminate H. }
  split; [exact Hi |].
  rewrite (is_byteb_true _ Hi) in H.
  destruct H as [H | [H | H]].
  - injection H as <-.
    exists [0x07; 0x81; 0x01; id_byte; Z.max 0 (Z.min 115 speed);
            Z.max 0 (Z.min 255 accel)].
    split; [| split; [right; reflexivity |]].
    + repeat constructor; unfold is_byte in *; lia.
    + cbn [app byte_sum foldr]. same_frame.
  - destruct (Z.abs angle <? float_overflow_bound); [| discriminate H].
    injection H as <-.
    exists [0x07; 0x81; 0x02; id_byte; Z.max 0 (Z.min 180 angle); 0x00].
    split; [| split; [right; reflexivity |]].
    + repeat constructor; unfold is_byte in *; lia.
    + cbn [app byte_sum foldr]. same_frame.
  - destruct (Z.leb_spec 1 direction), (Z.leb_spec direction 6);
      cbn [andb] in H; try discriminate H.
    injection H as <-.
    exists [0x04; 0x80; id_byte; direction].
    split; [| split; [left; reflexivity |]].
    + repeat constructor; unfold is_byte in *; lia.
    + cbn [app byte_sum foldr]. same_frame.
Qed.

Lemma removelast_snoc (l : bytes) (x : Z) : drop_last (l ++ [x]) = l.
Proof.
  unfold drop_last. rewrite length_app. simpl.
  replace (length l + 1 - 1)%nat with (length l) by lia.
  now rewrite take_app_length.
Qed.





(** X6. The checksum of a frame is always a byte, also when the input holds
    integers outside 0..255, so [bytes([checksum])] never raises. *)
Theorem calculate_checksum_fits_byte (data_bytes : bytes) :
  0 <= calculate_checksum data_bytes < 256 /\
  bytes1 (calculate_checksum data_bytes) = Ok [calculate_checksum data_bytes].
Proof.
  pose proof (calculate_checksum_byte data_bytes) as H.
  split; [exact H | now apply bytes1_byte].
Qed.

(** X7. The checksum does not see the order of the bytes after the header:
    two frames whose bytes after AA 55 are permutations of one another have
    the same checksum. *)
Theorem calculate_checksum_permutation (rest1 rest2 : bytes) :
  rest1 ≡ₚ rest2 ->
  calculate_checksum (0xAA :: 0x55 :: rest1)
    = calculate_checksum (0xAA :: 0x55 :: rest2).
Proof.
  intros H. rewrite !calculate_checksum_header.
  now rewrite (byte_sum_permutation _ _ H).
Qed.

Lemma calculate_checksum_permutation_witness :
  calculate_checksum [0xAA; 0x55; 0x04; 0x80; 0x01; 0x02]
    = calculate_checksum [0xAA; 0x55; 0x04; 0x80; 0x02; 0x01].
Proof.
  apply (calculate_checksum_permutation [0x04; 0x80; 0x01; 0x02]
           [0x04; 0x80; 0x02; 0x01]).
  do 2 apply Permutation_skip. apply Permutation_swap.
Defined.

(** X8. The checksum detects every change of a single byte after the
    header: replacing one byte by a different byte changes the checksum. *)
Theorem calculate_checksum_detects_one_byte (pre post : bytes) (x y : Z) :
  is_byte x -> is_byte y -> x <> y ->
  calculate_checksum (0xAA :: 0x55 :: pre ++ x :: post)
    <> calculate_checksum (0xAA :: 0x55 :: pre ++ y :: post).
Proof.
  unfold is_byte. intros Hx Hy Hne.
  rewrite !calculate_checksum_header, !byte_sum_app.
  change (byte_sum (x :: post)) with (x + byte_sum post).
  change (byte_sum (y :: post)) with (y + byte_sum post).
  intros Heq.
  pose proof (Z.div_mod (byte_sum pre + (x + byte_sum post)) 256 ltac:(lia)) as E1.
  pose proof (Z.div_mod (byte_sum pre + (y + byte_sum post)) 256 ltac:(lia)) as E2.
  rewrite Heq in E1. lia.
Qed.

Lemma calculate_checksum_detects_one_byte_witness :
  calculate_checksum (0xAA :: 0x55 :: [0x04; 0x80] ++ 0x00 :: [0x01])
    <> calculate_checksum (0xAA :: 0x55 :: [0x04; 0x80] ++ 0x03 :: [0x01]).
Proof.
  apply (calculate_checksum_detects_one_byte [0x04; 0x80] [0x01] 0x00 0x03);
    unfold is_byte; lia.
Defined.

End FrameIntegrity.

(** * Further properties of the decoder and of the hex dump *)

Section DecoderShapes.
Import RobotProtocol RobotMobileApp.

Lemma decode_angle_from_byte_id (b : Z) : decode_angle_from_byte b = b.
Proof. unfold decode_angle_from_byte. apply Z.div_mul. lia. Qed.

Lemma decode_cases_inversion (b0 b1 b2 b3 b4 b5 : Z) (rest : bytes) (r : Decoded) :
  decode_cases b0 b1 b2 b3 b4 b5 rest = Some r ->
  b0 = 0xAA /\ b1 = 0x55 /\
  ((b2 = 0x04 /\ b3 = 0x80 /\ rest = [] /\ r = MovementResponse b4 b5) \/
   (exists b6 b7, b2 = 0x07 /\ b3 = 0x81 /\ b4 = 0x01 /\ rest = [b6; b7] /\
                  r = SpeedResponse b5 b6 b7) \/
   (exists b6 b7, b2 = 0x07 /\ b3 = 0x81 /\ b4 = 0x02 /\ rest = [b6; b7] /\
                  r = AngleResponse b6 b6)).
Proof.
  unfold decode_cases.
  destruct (Z.eqb_spec b0 0xAA), (Z.eqb_spec b1 0x55); cbn [negb orb];
    try discriminate.
  intros H. split; [assumption | split; [assumption |]].
  destruct rest as [| b6 [| b7 [| b8 rest]]]; try discriminate H.
  - destruct (Z.eqb_spec b2 0x04), (Z.eqb_spec b3 0x80); cbn [andb] in H;
      try discriminate H.
    injection H as <-. left. auto.
  - destruct (Z.eqb_spec b2 0x07), (Z.eqb_spec b3 0x81); cbn [andb] in H;
      try discriminate H.
    destruct (Z.eqb_spec b4 0x01).
    + injection H as <-. right. left. exists b6, b7. auto.
    + destruct (Z.eqb_spec b4 0x02); [| discriminate H].
      injection H as <-. rewrite decode_angle_from_byte_id.
      right. right. exists b6, b7. auto.
Qed.

(** X9. The inputs [decode_response] accepts are exactly the three response
    shapes, with nothing before or after them: a movement response is
    AA 55 04 80 id direction, a speed response AA 55 07 81 01 id speed
    accel, an angle response AA 55 07 81 02 x angle y, where the bytes [x]
    and [y] are not looked at. *)
Theorem decode_fields_inversion (data : bytes) (r : Decoded) :
  decode_fields data = Ok (Some r) <->
  (exists id_byte direction,
     data = [0xAA; 0x55; 0x04; 0x80; id_byte; direction] /\
     r = MovementResponse id_byte direction) \/
  (exists id_byte speed accel,
     data = [0xAA; 0x55; 0x07; 0x81; 0x01; id_byte; speed; accel] /\
     r = SpeedResponse id_byte speed accel) \/
  (exists x angle_byte y,
     data = [0xAA; 0x55; 0x07; 0x81; 0x02; x; angle_byte; y] /\
     r = AngleResponse angle_byte angle_byte).
Proof.
  split.
  - intros H.
    destruct (bytes_short_or_long data)
      as [Hs | (b0 & b1 & b2 & b3 & b4 & b5 & rest & ->)].
    + rewrite decode_fields_short in H by exact Hs. discriminate H.
    + rewrite decode_fields_long in H. injection H as H.
      apply decode_cases_inversion in H
        as (-> & -> & [(-> & -> & -> & ->) | [(b6 & b7 & -> & -> & -> & -> & ->)
                                            | (b6 & b7 & -> & -> & -> & -> & ->)]]).
      * left. now exists b4, b5.
      * right. left. now exists b5, b6, b7.
      * right. right. now exists b5, b6, b7.
  - intros [(i & d & -> & ->) | [(i & sp & a & -> & ->) | (x & b & y & -> & ->)]];
      rewrite decode_fields_long; cbn; try reflexivity.
    now rewrite decode_angle_from_byte_id.
Qed.

(** X10. No accepted input is a proper prefix of another: an accepted input
    followed by further bytes is rejected, and so is every proper prefix of
    an accepted input. Merged or truncated reads are decoded to none. *)
Theorem accepted_frames_prefix_free (data extra : bytes) (r : Decoded) (n : nat) :
  decode_fields data = Ok (Some r) ->
  (extra <> [] -> decode_response (data ++ extra) = Ok None) /\
  ((n < length data)%nat -> decode_response (take n data) = Ok None).
Proof.
  intros H. apply decode_fields_inversion in H
    as [(i & d & -> & _) | [(i & sp & a & -> & _) | (x & b & y & -> & _)]];
    (split; [intros He | intros Hn]); apply decode_response_None.
  - destruct extra as [| e1 [| e2 [| e3 extra]]]; [congruence | | |];
      cbn [app]; rewrite decode_fields_long; reflexivity.
  - simpl in Hn.
    do 6 (destruct n as [| n]; [reflexivity |]). lia.
  - destruct extra as [| e1 extra]; [congruence |].
    cbn [app]; rewrite decode_fields_long; reflexivity.
  - simpl in Hn.
    do 8 (destruct n as [| n]; [reflexivity |]). lia.
  - destruct extra as [| e1 extra]; [congruence |].
    cbn [app]; rewrite decode_fields_long; reflexivity.
  - simpl in Hn.
    do 8 (destruct n as [| n]; [reflexivity |]). lia.
Qed.

Lemma accepted_frames_prefix_free_witness :
  decode_response ([0xAA; 0x55; 0x04; 0x80; 0x00; 0x01]
                     ++ [0xAA; 0x55; 0x04; 0x80; 0x00; 0x02]) = Ok None /\
  decode_response (take 4 [0xAA; 0x55; 0x04; 0x80; 0x00; 0x01]) = Ok None.
Proof.
  destruct (accepted_frames_prefix_free
              [0xAA; 0x55; 0x04; 0x80; 0x00; 0x01]
              [0xAA; 0x55; 0x04; 0x80; 0x00; 0x02]
              (MovementResponse 0x00 0x01) 4 eq_refl) as [H1 H2].
  split.
  - apply H1. discriminate.
  - apply H2. simpl. lia.
Defined.

End DecoderShapes.

Section HexDump.
Import RobotProtocol.

Lemma is_byte_all_bytes (b : Z) : is_byte b -> b ∈ all_bytes.
Proof.
  intros [Hlo Hhi]. unfold all_bytes.
  apply list_elem_of_fmap. exists (Z.to_nat b). split; [lia |].
  apply elem_of_seq. lia.
Qed.

Lemma check_02X_all : forallb check_02X all_bytes = true.
Proof. vm_compute. reflexivity. Qed.

Lemma format_02X_byte (b : Z) :
  is_byte b ->
  exists c1 c2,
    format_02X b = String c1 (String c2 EmptyString) /\ parse_02X c1 c2 = Some b.
Proof.
  intros Hb. apply is_byte_all_bytes in Hb.
  pose proof check_02X_all as Hall.
  rewrite forallb_forall in Hall.
  apply list_elem_of_In in Hb. specialize (Hall b Hb).
  unfold check_02X in Hall.
  destruct (format_02X b) as [| c1 [| c2 [| c3 s]]]; try discriminate Hall.
  destruct (parse_02X c1 c2) as [v |] eqn:Hp; [| discriminate Hall].
  apply Z.eqb_eq in Hall. subst v. now exists c1, c2.
Qed.

Lemma join_cons2 (sep p q : string) (l : list string) :
  join sep (p :: q :: l) = p +:+ sep +:+ join sep (q :: l).
Proof. reflexivity. Qed.

Lemma parse_format_hex (data : bytes) :
  Forall is_byte data -> parse_hex (format_hex data) = Some data.
Proof.
  unfold format_hex. induction 1 as [| b rest Hb Hrest IH]; [reflexivity |].
  destruct (format_02X_byte b Hb) as (c1 & c2 & Hf & Hp).
  rewrite fmap_cons. destruct rest as [| b' rest].
  - rewrite Hf. cbn [fmap list_fmap join parse_hex]. now rewrite Hp.
  - rewrite fmap_cons, join_cons2, Hf, <- fmap_cons.
    change (parse_hex (String c1 (String c2 (String " "
              (join " " (format_02X <$> b' :: rest))))) = Some (b :: b' :: rest)).
    cbn [parse_hex]. now rewrite Hp, IH.
Qed.

(** X11. The hex dump determines the bytes: two byte sequences with the
    same [format_hex] are equal. *)
Theorem format_hex_injective (data1 data2 : bytes) :
  Forall is_byte data1 -> Forall is_byte data2 ->
  format_hex data1 = format_hex data2 -> data1 = data2.
Proof.
  intros H1 H2 Heq.
  apply parse_format_hex in H1, H2. rewrite Heq in H1. congruence.
Qed.

Lemma format_hex_injective_witness :
  [0xAA; 0x55; 0x04] = [0xAA; 0x55; 0x04].
Proof.
  apply (format_hex_injective [0xAA; 0x55; 0x04] [0xAA; 0x55; 0x04]).
  - repeat constructor; unfold is_byte; lia.
  - repeat constructor; unfold is_byte; lia.
  - reflexivity.
Defined.

Lemma length_append (s1 s2 : string) :
  String.length (s1 +:+ s2) = (String.length s1 + String.length s2)%nat.
Proof. induction s1 as [| c s1 IH]; simpl; [reflexivity | now rewrite IH]. Qed.

(** X12. The hex dump of [n >= 1] bytes has exactly [3 * n - 1] characters,
    two digits per byte and one space between neighbours; the dump of the
    empty sequence is empty. *)
Theorem format_hex_length (data : bytes) :
  Forall is_byte data ->
  String.length (format_hex data) = (3 * length data - 1)%nat.
Proof.
  unfold format_hex. induction 1 as [| b rest Hb Hrest IH]; [reflexivity |].
  destruct (format_02X_byte b Hb) as (c1 & c2 & Hf & _).
  rewrite fmap_cons. destruct rest as [| b' rest].
  - rewrite Hf. reflexivity.
  - rewrite fmap_cons, join_cons2, Hf, <- fmap_cons.
    rewrite !length_append, IH. simpl. lia.
Qed.

Lemma format_hex_length_witness :
  String.length (format_hex [0xAA; 0x55; 0x04; 0x80; 0x00; 0x01; 0x85])
    = (3 * length [0xAA; 0x55; 0x04; 0x80; 0x00; 0x01; 0x85] - 1)%nat.
Proof.
  apply (format_hex_length [0xAA; 0x55; 0x04; 0x80; 0x00; 0x01; 0x85]).
  repeat constructor; unfold is_byte; lia.
Defined.

End HexDump.

(** * Further properties of the TCP client *)

Section ClientStates.
Import TCPClient.

(** X13. [disconnect] is idempotent: a second call changes nothing, closes
    nothing and raises nothing. *)
Theorem disconnect_idempotent (c1 c2 : bool) (w : world) :
  disconnect c2 (disconnect c1 w) = disconnect c1 w.
Proof.
  unfold disconnect at 1. now rewrite disconnect_no_socket.
Qed.

Lemma step_connected_socket (ev : event) (w : world) :
  (is_connected (self w) = true -> is_Some (socket (self w))) ->
  is_connected (self (step ev w)) = true -> is_Some (socket (self (step ev w))).
Proof.
  intros Hinv. destruct ev as [cb | h p o | c | d o | o].
  - exact Hinv.
  - destruct o; simpl; eauto.
  - simpl. unfold disconnect.
    destruct (socket (self w)) eqn:Hs; simpl; [discriminate |].
    rewrite Hs. exact Hinv.
  - simpl. unfold send_data.
    destruct (is_connected (self w)) eqn:Hc, (socket (self w)) eqn:Hs; simpl;
      try (rewrite ?Hc, ?Hs; eauto; fail).
    destruct o; simpl; [rewrite Hs; eauto | discriminate].
  - rewrite step_receive_self. exact Hinv.
Qed.

(** X14. In every state the client can reach, [is_connected] being true
    implies that [self.socket] holds a socket object. *)
Theorem connected_has_socket (w : world) :
  reachable w ->
  is_connected (self w) = true -> exists s, socket (self w) = Some s.
Proof.
  intros (cb & evs & ->).
  enough (is_connected (self (run evs (init cb))) = true ->
          is_Some (socket (self (run evs (init cb))))) as H
    by (intros Hc; destruct (H Hc) as [s Hs]; now exists s).
  unfold run. rewrite <- (rev_involutive evs).
  induction (rev evs) as [| ev l IH]; [discriminate |].
  simpl. rewrite foldl_app. simpl. now apply step_connected_socket.
Qed.

Lemma connected_has_socket_witness :
  exists s, socket (self connected_world) = Some s.
Proof.
  apply (connected_has_socket connected_world).
  - exists None, [EvConnect "192.168.0.12" 12345 ConnectSucceeds]. reflexivity.
  - reflexivity.
Defined.

Lemma step_stays_offline (ev : event) (w : world) :
  connect_sets_flag ev = false ->
  is_connected (self w) = false -> is_connected (self (step ev w)) = false.
Proof.
  intros Hev Hoff. destruct ev as [cb | h p o | c | d o | o].
  - exact Hoff.
  - destruct o; simpl; try exact Hoff; discriminate Hev.
  - simpl. unfold disconnect. destruct (socket (self w)); [reflexivity | exact Hoff].
  - simpl. unfold send_data. rewrite Hoff. exact Hoff.
  - now rewrite step_receive_self.
Qed.

Lemma run_stays_offline (evs : list event) :
  forall w,
    Forall (fun ev => connect_sets_flag ev = false) evs ->
    is_connected (self w) = false -> is_connected (self (run evs w)) = false.
Proof.
  induction evs as [| ev evs IH]; intros w Hevs Hoff; [exact Hoff |].
  inversion Hevs as [| ? ? Hev Hrest]; subst.
  unfold run. simpl. apply IH; [exact Hrest |].
  now apply step_stays_offline.
Qed.

(** X15. A client whose [is_connected] is false stays so as long as no
    [connect] gets past [socket.connect]: whatever else happens, connects
    that fail at socket creation or at [socket.connect] included, every
    [send_data] returns (False, "未连接") and changes nothing. This is the
    state after a failed [sendall]. A [connect] that fails only when the
    receive thread is started is not among them: it returns (False, ...)
    and leaves [is_connected] true. *)
Theorem offline_until_connect_goes_through
    (w : world) (evs : list event) (data_bytes : bytes) (o : send_outcome)
    (h : string) (p : Z) (msg : string) :
  (is_connected (self w) = false ->
   Forall (fun ev => connect_sets_flag ev = false) evs ->
   is_connected (self (run evs w)) = false /\
   send_data data_bytes o (run evs w) = (run evs w, (false, "未连接"))) /\
  (is_connected (self (fst (connect h p (StartRaises msg) w))) = true /\
   snd (connect h p (StartRaises msg) w) = (false, "连接失败: " +:+ msg)).
Proof.
  split; [| split; reflexivity].
  intros Hoff Hevs.
  pose proof (run_stays_offline evs w Hevs Hoff) as H.
  split; [exact H |]. unfold send_data. now rewrite H.
Qed.

Lemma offline_until_connect_goes_through_witness :
  let w := fst (send_data [0x01] (SendRaises "broken pipe") connected_world) in
  let evs := [EvReceive RecvTimeout;
              EvConnect "192.168.0.12" 12345 ConnectRefused;
              EvSend [0x02] SendSucceeds] in
  is_connected (self (run evs w)) = false /\
  send_data [0x03] SendSucceeds (run evs w) = (run evs w, (false, "未连接")).
Proof.
  apply (proj1 (offline_until_connect_goes_through
           (fst (send_data [0x01] (SendRaises "broken pipe") connected_world))
           [EvReceive RecvTimeout;
            EvConnect "192.168.0.12" 12345 ConnectRefused;
            EvSend [0x02] SendSucceeds]
           [0x03] SendSucceeds "" 0 "")).
  - reflexivity.
  - repeat constructor.
Defined.

(** A connect whose thread cannot be started: the caller is told it failed,
    yet the client is marked connected and sends go out. *)
Example connect_start_raises_connected :
  let r := connect "192.168.0.12" 12345 (StartRaises "can't start new thread")
             (init None) in
  fst (snd r) = false /\ is_connected (self (fst r)) = true /\
  live_threads (fst r) = 0%nat /\
  fst (snd (send_data [0x01] SendSucceeds (fst r))) = true.
Proof. repeat split. Qed.

End ClientStates.

Section ReceiveLoop.
Import TCPClient.

(** One iteration of a connected client with a callback that does not make
    the loop return. *)
Lemma receive_iteration_delivers (o : recv_outcome) (w : world) (s : sock)
    (cb : callback) :
  is_connected (self w) = true -> socket (self w) = Some s ->
  receive_callback (self w) = Some cb ->
  (forall d, cb d <> CbRaisesOther) -> o <> RecvError ->
  exists w',
    receive_iteration o w = (w', Looping) /\ self w' = self w /\
    delivered w' = delivered w ++ chunks [o] /\
    ops w' = ops w ++ [OpRecv s 1024].
Proof.
  intros Hc Hs Hcb Hok Ho. unfold receive_iteration. rewrite Hc, Hs, Hcb.
  destruct o as [[| b data] | |]; [| | | congruence].
  - eexists. repeat split. simpl. now rewrite app_nil_r.
  - specialize (Hok (b :: data)).
    destruct (cb (b :: data)); [| | congruence]; eexists; repeat split.
  - eexists. repeat split. simpl. now rewrite app_nil_r.
Qed.

Lemma chunks_cons (o : recv_outcome) (os : list recv_outcome) :
  chunks (o :: os) = chunks [o] ++ chunks os.
Proof. unfold chunks. simpl. now rewrite app_nil_r. Qed.

(** X16. While the client is connected and neither [recv] nor the callback
    fails, the receive loop keeps running, calls [recv(1024)] once per
    iteration, and hands every non-empty chunk to the callback exactly once,
    unmodified and in the order received; empty reads and time-outs deliver
    nothing. *)
Theorem receive_loop_delivers (os : list recv_outcome) (w : world) (s : sock)
    (cb : callback) :
  is_connected (self w) = true -> socket (self w) = Some s ->
  receive_callback (self w) = Some cb ->
  (forall d, cb d <> CbRaisesOther) ->
  Forall (fun o => o <> RecvError) os ->
  snd (receive_loop os w) = Looping /\
  delivered (fst (receive_loop os w)) = delivered w ++ chunks os /\
  ops (fst (receive_loop os w)) = ops w ++ replicate (length os) (OpRecv s 1024).
Proof.
  intros Hc Hs Hcb Hok Hos. revert w Hc Hs Hcb.
  induction Hos as [| o os Ho Hos IH]; intros w Hc Hs Hcb.
  - simpl. now rewrite !app_nil_r.
  - destruct (receive_iteration_delivers o w s cb Hc Hs Hcb Hok Ho)
      as (w' & Hit & Hself & Hdel & Hops).
    cbn [receive_loop]. rewrite Hit.
    destruct (IH w') as (H1 & H2 & H3); try (rewrite Hself; assumption).
    split; [exact H1 | split].
    + rewrite H2, Hdel, (chunks_cons o os). now rewrite app_assoc.
    + rewrite H3, Hops. simpl. now rewrite <- app_assoc.
Qed.

Lemma receive_loop_delivers_witness :
  let w := fst (connect "192.168.0.12" 12345 ConnectSucceeds
                  (init (Some (fun _ => CbReturns)))) in
  let os := [RecvTimeout; RecvData [0xAA; 0x55]; RecvData []; RecvData [0x04]] in
  snd (receive_loop os w) = Looping /\
  delivered (fst (receive_loop os w)) = delivered w ++ chunks os /\
  ops (fst (receive_loop os w)) = ops w ++ replicate (length os) (OpRecv 0%nat 1024).
Proof.
  apply (receive_loop_delivers
           [RecvTimeout; RecvData [0xAA; 0x55]; RecvData []; RecvData [0x04]]
           (fst (connect "192.168.0.12" 12345 ConnectSucceeds
                   (init (Some (fun _ => CbReturns)))))
           0%nat (fun _ => CbReturns)).
  - reflexivity.
  - reflexivity.
  - reflexivity.
  - intros d. discriminate.
  - repeat constructor; discriminate.
Defined.

(** X17. After [disconnect] every receive thread returns at its next look
    at the loop condition, without calling [recv] and without delivering
    anything, whatever the socket would have answered. *)
Theorem receive_threads_stop_after_disconnect
    (c : bool) (w : world) (os : list recv_outcome) :
  let w' := run (EvReceive <$> os) (disconnect c w) in
  ops w' = ops (disconnect c w) /\
  delivered w' = delivered w /\
  self w' = self (disconnect c w) /\
  live_threads w' = (live_threads w - length os)%nat.
Proof.
  assert (forall os v, socket (self v) = None ->
            let v' := run (EvReceive <$> os) v in
            ops v' = ops v /\ delivered v' = delivered v /\ self v' = self v /\
            live_threads v' = (live_threads v - length os)%nat) as Hgen.
  { clear. induction os as [| o os IH]; intros v Hv.
    - simpl. repeat split. lia.
    - cbn [fmap list_fmap]. unfold run. cbn [foldl].
      fold (run (EvReceive <$> os) (step (EvReceive o) v)).
      cbn [step]. rewrite receive_iteration_no_socket by exact Hv.
      destruct (live_threads v) as [| n] eqn:Hn.
      + destruct (IH v Hv) as (H1 & H2 & H3 & H4).
        repeat split; try assumption. rewrite H4, Hn. reflexivity.
      + destruct (IH (thread_returns v) Hv) as (H1 & H2 & H3 & H4).
        repeat split; try assumption.
        rewrite H4. simpl. rewrite Hn. reflexivity. }
  intros w'. subst w'.
  destruct (Hgen os (disconnect c w) (disconnect_no_socket c w))
    as (H1 & H2 & H3 & H4).
  repeat split; try assumption.
  - rewrite H2. unfold disconnect. destruct (socket (self w)); reflexivity.
  - rewrite H4. unfold disconnect. destruct (socket (self w)); reflexivity.
Qed.

End ReceiveLoop.

Section SocketLog.
Import TCPClient.

Lemma log_inv_init : log_inv [] 0%nat None.
Proof.
  repeat split.
  - intros op Hop. inversion Hop.
  - discriminate.
  - discriminate.
  - intros i j s d Hi. rewrite lookup_nil in Hi. discriminate Hi.
Qed.

(** An operation other than [close] on the current socket. *)
Lemma log_inv_use (l : list sock_op) (next s : sock) (op : sock_op) :
  log_inv l next (Some s) -> op_sock op = s -> (forall s', op <> OpClose s') ->
  log_inv (l ++ [op]) next (Some s).
Proof.
  intros (Hlt & Hcur & Hord) Hop Hnc.
  destruct (Hcur s eq_refl) as [Hs Hcl].
  repeat split.
  - intros op' Hin. apply elem_of_app in Hin as [Hin | Hin]; [now apply Hlt |].
    apply list_elem_of_singleton in Hin. subst op'. lia.
  - injection H as <-. exact Hs.
  - injection H as <-. intros Hin.
    apply elem_of_app in Hin as [Hin | Hin]; [now apply Hcl |].
    apply list_elem_of_singleton in Hin. now apply (Hnc s).
  - intros i j s' d Hi Hj.
    assert (l !! i = Some (OpClose s')) as Hi'.
    { destruct (decide (i < length l)%nat) as [Hlt' | Hge].
      - now rewrite lookup_app_l in Hi.
      - rewrite lookup_app_r in Hi by lia.
        destruct (i - length l)%nat; simpl in Hi; [| discriminate Hi].
        injection Hi as ->. now destruct (Hnc s'). }
    destruct (decide (j < length l)%nat) as [Hlt' | Hge].
    + rewrite lookup_app_l in Hj by exact Hlt'. now apply (Hord i j s' d).
    + rewrite lookup_app_r in Hj by lia.
      destruct (j - length l)%nat; simpl in Hj; [| discriminate Hj].
      injection Hj as ->. simpl in Hop. subst s'.
      exfalso. apply Hcl. apply list_elem_of_lookup. now exists i.
Qed.

(** [close] on the current socket, which is then forgotten. *)
Lemma log_inv_close (l : list sock_op) (next s : sock) :
  log_inv l next (Some s) -> log_inv (l ++ [OpClose s]) next None.
Proof.
  intros (Hlt & Hcur & Hord).
  destruct (Hcur s eq_refl) as [Hs Hcl].
  repeat split; try discriminate.
  - intros op' Hin. apply elem_of_app in Hin as [Hin | Hin]; [now apply Hlt |].
    apply list_elem_of_singleton in Hin. subst op'. exact Hs.
  - intros i j s' d Hi Hj.
    assert (l !! j = Some (OpSendAll s' d)) as Hj'.
    { destruct (decide (j < length l)%nat) as [Hlt' | Hge].
      - now rewrite lookup_app_l in Hj.
      - rewrite lookup_app_r in Hj by lia.
        destruct (j - length l)%nat; simpl in Hj; discriminate Hj. }
    destruct (decide (i < length l)%nat) as [Hlt' | Hge].
    + rewrite lookup_app_l in Hi by exact Hlt'. now apply (Hord i j s' d).
    + apply lookup_lt_Some in Hj'. lia.
Qed.

(** Operations on a fresh socket, none of them [close] or [sendall]; the
    fresh socket becomes the current one. *)
Lemma log_inv_fresh (l l' : list sock_op) (next : sock) (cur : option sock) :
  log_inv l next cur ->
  Forall (fun op => op_sock op = next /\
                    (forall s, op <> OpClose s) /\
                    (forall s d, op <> OpSendAll s d)) l' ->
  log_inv (l ++ l') (S next) (Some next).
Proof.
  intros (Hlt & Hcur & Hord) Hl'. rewrite Forall_forall in Hl'.
  repeat split.
  - intros op Hin. apply elem_of_app in Hin as [Hin | Hin].
    + specialize (Hlt op Hin). lia.
    + destruct (Hl' op Hin) as [-> _]. lia.
  - injection H as <-. lia.
  - injection H as <-. intros Hin. apply elem_of_app in Hin as [Hin | Hin].
    + specialize (Hlt _ Hin). simpl in Hlt. lia.
    + destruct (Hl' _ Hin) as (_ & Hnc & _). now apply (Hnc next).
  - intros i j s d Hi Hj.
    assert (l !! i = Some (OpClose s)) as Hi'.
    { destruct (decide (i < length l)%nat) as [Hlt' | Hge].
      - now rewrite lookup_app_l in Hi.
      - rewrite lookup_app_r in Hi by lia.
        apply list_elem_of_lookup_2 in Hi.
        destruct (Hl' _ Hi) as (_ & Hnc & _). now destruct (Hnc s). }
    assert (l !! j = Some (OpSendAll s d)) as Hj'.
    { destruct (decide (j < length l)%nat) as [Hlt' | Hge].
      - now rewrite lookup_app_l in Hj.
      - rewrite lookup_app_r in Hj by lia.
        apply list_elem_of_lookup_2 in Hj.
        destruct (Hl' _ Hj) as (_ & _ & Hns). now destruct (Hns s d). }
    now apply (Hord i j s d).
Qed.

(** Forgetting nothing and logging nothing. *)
Lemma log_inv_drop_socket (l : list sock_op) (next : sock) (cur : option sock) :
  log_inv l next cur -> log_inv l next None.
Proof. intros (Hlt & _ & Hord). repeat split; try discriminate; assumption. Qed.

Lemma receive_iteration_inv (o : recv_outcome) (w : world) :
  world_inv w -> world_inv (fst (receive_iteration o w)).
Proof.
  unfold world_inv. intros Hinv.
  pose proof (receive_iteration_self o w) as Hself. rewrite Hself.
  unfold receive_iteration.
  destruct (is_connected (self w)), (socket (self w)) as [s |] eqn:Hs;
    try exact Hinv.
  assert (log_inv (ops w ++ [OpRecv s 1024]) (next_sock w) (Some s)) as H1
    by (apply log_inv_use; [exact Hinv | reflexivity | discriminate]).
  destruct o as [[| b data] | |]; try exact H1.
  destruct (receive_callback (self w)) as [cb |]; [| exact H1].
  destruct (cb (b :: data)); exact H1.
Qed.

Lemma step_inv (ev : event) (w : world) : world_inv w -> world_inv (step ev w).
Proof.
  unfold world_inv. intros Hinv.
  destruct ev as [cb | h p o | c | d o | o].
  - exact Hinv.
  - destruct o; cbn [step connect fst]; try exact Hinv;
      cbn [self ops next_sock socket];
      rewrite <- ?app_assoc; apply (log_inv_fresh _ _ _ _ Hinv);
      repeat constructor; discriminate.
  - cbn [step]. unfold disconnect.
    destruct (socket (self w)) as [s |] eqn:Hs.
    + cbn [self ops next_sock socket log_ops set_self].
      apply log_inv_close. exact Hinv.
    + rewrite Hs. exact Hinv.
  - cbn [step]. unfold send_data.
    destruct (is_connected (self w)), (socket (self w)) as [s |] eqn:Hs;
      cbn [fst]; try (rewrite ?Hs; exact Hinv).
    destruct o; cbn [fst self ops next_sock socket log_ops set_self];
      rewrite ?Hs; (apply log_inv_use; [exact Hinv | reflexivity | discriminate]).
  - cbn [step]. destruct (live_threads w); [exact Hinv |].
    pose proof (receive_iteration_inv o w Hinv) as H.
    unfold world_inv in H.
    destruct (receive_iteration o w) as [w' [|]]; exact H.
Qed.

Lemma reachable_inv (w : world) : reachable w -> world_inv w.
Proof.
  intros (cb & evs & ->). unfold run. rewrite <- (rev_involutive evs).
  induction (rev evs) as [| ev l IH]; [apply log_inv_init |].
  simpl. rewrite foldl_app. simpl. now apply step_inv.
Qed.

(** X18. The client never writes to a socket it has closed: in the log of
    every reachable state, each [sendall] on a socket comes before each
    [close] of that socket, and the current socket has not been closed. *)
Theorem never_sends_on_closed_socket (w : world) (i j : nat) (s : sock)
    (d : bytes) :
  reachable w ->
  (ops w !! i = Some (OpClose s) -> ops w !! j = Some (OpSendAll s d) ->
   (j < i)%nat) /\
  (socket (self w) = Some s -> OpClose s ∉ ops w).
Proof.
  intros Hr. destruct (reachable_inv w Hr) as (_ & Hcur & Hord).
  split.
  - apply Hord.
  - intros Hs. now destruct (Hcur s Hs).
Qed.

Lemma never_sends_on_closed_socket_witness :
  (4 < 5)%nat /\ OpClose 1%nat ∉ ops two_sessions.
Proof.
  assert (reachable two_sessions) as Hr by (exists None; eexists; reflexivity).
  split.
  - apply (proj1 (never_sends_on_closed_socket two_sessions 5%nat 4%nat 0%nat
                    [0x01] Hr)); reflexivity.
  - apply (proj2 (never_sends_on_closed_socket two_sessions 0%nat 0%nat 1%nat
                    [] Hr)); reflexivity.
Defined.

End SocketLog.

(** * Properties of the handlers *)

Section HandlerProperties.
Import RobotProtocol RobotMobileApp TCPClient Handlers.

Lemma encoder_frame_valid (speed accel angle direction id_byte : Z)
    (frame : bytes) :
  create_speed_command speed accel id_byte = Ok frame \/
  create_angle_command angle id_byte = Ok frame \/
  create_movement_command direction id_byte = Ok (Some frame) ->
  valid_frame frame /\ frame <> [].
Proof.
  intros H.
  destruct (encoder_frames _ _ _ _ _ _ H) as (_ & body & Hb & _ & ->).
  split; [| discriminate]. split; [| split].
  - do 2 (constructor; [unfold is_byte; lia |]).
    apply Forall_app. split; [exact Hb |].
    constructor; [apply mod256_byte | constructor].
  - reflexivity.
  - change (0xAA :: 0x55 :: body ++ [byte_sum body mod 256])
      with ((0xAA :: 0x55 :: body) ++ [byte_sum body mod 256]).
    rewrite last_snoc, removelast_snoc, calculate_checksum_header. reflexivity.
Qed.

(** What one call of [send_data] does to the log. *)
Lemma send_data_shape (d : bytes) (o : send_outcome) (w : world) :
  (send_data d o w = (w, (false, "未连接"))) \/
  (exists s w' msg ok,
     send_data d o w = (w', (ok, msg)) /\
     is_connected (self w) = true /\ socket (self w) = Some s /\
     ops w' = ops w ++ [OpSendAll s d] /\
     (ok = true <-> o = SendSucceeds)).
Proof.
  unfold send_data.
  destruct (is_connected (self w)) eqn:Hc, (socket (self w)) as [s |] eqn:Hs;
    try (left; reflexivity).
  right. destruct o as [| msg].
  - exists s. eexists. eexists. exists true. repeat split.
  - exists s. eexists. eexists. exists false. repeat split; discriminate.
Qed.

(** X19. The three handlers are the only callers of [send_data]. One call
    of a handler performs at most one socket operation, only when the client
    is connected, and that operation is a [sendall], on the current socket,
    of a frame made of bytes that starts with AA 55 and ends with its
    checksum, whatever the id, the slider values and the typed accel are. *)
Theorem handlers_send_valid_frames
    (a a' : app) (e : option exn) (direction : Z) (accel_input : option Z)
    (logged_byte : Res Z) (timestamp : string) (o : send_outcome) :
  send_movement_command direction timestamp o a = (a', e) \/
  send_speed_command accel_input timestamp o a = (a', e) \/
  send_angle_command logged_byte timestamp o a = (a', e) ->
  ops (tcp_client a') = ops (tcp_client a) \/
  exists s frame,
    connected a = true /\ socket (self (tcp_client a)) = Some s /\
    valid_frame frame /\
    ops (tcp_client a') = ops (tcp_client a) ++ [OpSendAll s frame].
Proof.
  intros [H | [H | H]].
  - unfold send_movement_command in H.
    destruct (connected a) eqn:Hc; cbn [negb] in H;
      [| injection H as <- <-; left; reflexivity].
    destruct (create_movement_command direction (id_selection a))
      as [[[| b cmd] |] | ex] eqn:Hcmd;
      try (injection H as <- <-; left; reflexivity).
    destruct (send_data_shape (b :: cmd) o (tcp_client a))
      as [Hs | (s & w' & msg & ok & Hs & _ & Hsock & Hops & _)];
      rewrite Hs in H.
    + injection H as <- <-. left. reflexivity.
    + right. exists s, (b :: cmd).
      split; [reflexivity |]. split; [exact Hsock |]. split.
      * apply (encoder_frame_valid 0 0 0 direction (id_selection a)). auto.
      * destruct ok; injection H as <- <-; exact Hops.
  - unfold send_speed_command in H.
    destruct (connected a) eqn:Hc; cbn [negb] in H;
      [| injection H as <- <-; left; reflexivity].
    destruct accel_input as [accel_time |];
      [| injection H as <- <-; left; reflexivity].
    destruct ((accel_time <? 0) || (255 <? accel_time));
      [injection H as <- <-; left; reflexivity |].
    destruct (create_speed_command (current_speed a) accel_time (id_selection a))
      as [cmd | ex] eqn:Hcmd; [| injection H as <- <-; left; reflexivity].
    destruct (send_data_shape cmd o (tcp_client a))
      as [Hs | (s & w' & msg & ok & Hs & _ & Hsock & Hops & _)];
      rewrite Hs in H.
    + injection H as <- <-. left. reflexivity.
    + right. exists s, cmd.
      split; [reflexivity |]. split; [exact Hsock |]. split.
      * apply (encoder_frame_valid (current_speed a) accel_time 0 0
                 (id_selection a)). auto.
      * destruct ok; injection H as <- <-; exact Hops.
  - unfold send_angle_command in H.
    destruct (connected a) eqn:Hc; cbn [negb] in H;
      [| injection H as <- <-; left; reflexivity].
    destruct (create_angle_command (current_angle a) 0x00)
      as [cmd | ex] eqn:Hcmd; [| injection H as <- <-; left; reflexivity].
    destruct (send_data_shape cmd o (tcp_client a))
      as [Hs | (s & w' & msg & ok & Hs & _ & Hsock & Hops & _)];
      rewrite Hs in H.
    + injection H as <- <-. left. reflexivity.
    + right. exists s, cmd.
      split; [reflexivity |]. split; [exact Hsock |]. split.
      * apply (encoder_frame_valid 0 0 (current_angle a) 0 0x00). auto.
      * destruct ok; [destruct logged_byte |]; injection H as <- <-; exact Hops.
Qed.

Lemma handlers_send_valid_frames_witness :
  let a' := fst (send_movement_command 1 "12:00:00" SendSucceeds connected_app) in
  ops (tcp_client a') = ops (tcp_client connected_app) \/
  exists s frame,
    connected connected_app = true /\
    socket (self (tcp_client connected_app)) = Some s /\
    valid_frame frame /\
    ops (tcp_client a') = ops (tcp_client connected_app) ++ [OpSendAll s frame].
Proof.
  apply (handlers_send_valid_frames connected_app _
           (snd (send_movement_command 1 "12:00:00" SendSucceeds connected_app))
           1 None (Ok 0) "12:00:00" SendSucceeds).
  left. reflexivity.
Defined.

(** X20. Whenever [send_speed_command] writes to the socket, the accel it
    was given lies in 0..255 and is the accel byte of the frame, unchanged:
    the handler rejects other values before the encoder could clamp them.
    The speed byte is the slider value clamped to 0..115. *)
Theorem send_speed_command_accel
    (a a' : app) (e : option exn) (accel_input : option Z) (timestamp : string)
    (o : send_outcome) :
  send_speed_command accel_input timestamp o a = (a', e) ->
  ops (tcp_client a') <> ops (tcp_client a) ->
  exists accel_time s,
    accel_input = Some accel_time /\ 0 <= accel_time <= 255 /\
    ops (tcp_client a') = ops (tcp_client a) ++
      [OpSendAll s
         [0xAA; 0x55; 0x07; 0x81; 0x01; id_selection a;
          Z.max 0 (Z.min 115 (current_speed a)); accel_time;
          (0x07 + 0x81 + 0x01 + id_selection a
             + Z.max 0 (Z.min 115 (current_speed a)) + accel_time) mod 256]].
Proof.
  intros H Hne. unfold send_speed_command in H.
  destruct (connected a) eqn:Hc; cbn [negb] in H;
    [| injection H as <- <-; now destruct Hne].
  destruct accel_input as [accel_time |];
    [| injection H as <- <-; now destruct Hne].
  destruct (Z.ltb_spec accel_time 0), (Z.ltb_spec 255 accel_time);
    cbn [orb] in H; try (injection H as <- <-; now destruct Hne).
  rewrite create_speed_command_closed_form in H.
  destruct (is_byteb (id_selection a));
    [| injection H as <- <-; now destruct Hne].
  replace (Z.max 0 (Z.min 255 accel_time)) with accel_time in H by lia.
  match type of H with context [send_data ?c o (tcp_client a)] =>
    destruct (send_data_shape c o (tcp_client a))
      as [Hs | (s & w' & msg & ok & Hs & _ & _ & Hops & _)]; rewrite Hs in H
  end.
  - injection H as <- <-. now destruct Hne.
  - exists accel_time, s. split; [reflexivity |]. split; [lia |].
    destruct ok; injection H as <- <-; exact Hops.
Qed.

Lemma send_speed_command_accel_witness :
  let a' := fst (send_speed_command (Some 200) "12:00:00" SendSucceeds
                   connected_app) in
  exists accel_time s,
    Some 200 = Some accel_time /\ 0 <= accel_time <= 255 /\
    ops (tcp_client a') = ops (tcp_client connected_app) ++
      [OpSendAll s
         [0xAA; 0x55; 0x07; 0x81; 0x01; id_selection connected_app;
          Z.max 0 (Z.min 115 (current_speed connected_app)); accel_time;
          (0x07 + 0x81 + 0x01 + id_selection connected_app
             + Z.max 0 (Z.min 115 (current_speed connected_app))
             + accel_time) mod 256]].
Proof.
  apply (send_speed_command_accel connected_app _
           (snd (send_speed_command (Some 200) "12:00:00" SendSucceeds
                   connected_app))
           (Some 200) "12:00:00" SendSucceeds).
  - reflexivity.
  - vm_compute. discriminate.
Defined.

Lemma message_not_empty (r : Decoded) :
  exists c s, message r = String c s.
Proof. destruct r; simpl; eauto. Qed.

(** X21. [process_received_data] never raises and appends exactly one line
    to the receive pane, touching nothing else: the decoded message when
    the chunk is one of the three response shapes, and otherwise the hex
    dump of the chunk. *)
Theorem process_received_data_logs (data : bytes) (timestamp : string) (a : app) :
  (exists r,
     decode_fields data = Ok (Some r) /\
     process_received_data data timestamp a =
       (log_recv ("[" +:+ timestamp +:+ "] " +:+ message r) a, None)) \/
  (decode_fields data = Ok None /\
   process_received_data data timestamp a =
     (log_recv ("[" +:+ timestamp +:+ "] 接收数据: " +:+ format_hex data) a,
      None)).
Proof.
  unfold process_received_data.
  destruct (decode_fields_returns data) as [[r |] Hr];
    rewrite (decode_response_fields _ _ Hr).
  - left. exists r. split; [exact Hr |].
    destruct (message_not_empty r) as (c & s & Hm).
    cbn [fmap option_fmap option_map]. rewrite Hm. reflexivity.
  - right. split; [exact Hr | reflexivity].
Qed.

(** When the movement handler raises, and what it leaves. *)
Lemma send_movement_command_exn (a : app) (direction : Z) (timestamp : string)
    (o : send_outcome) :
  (connected a = true /\ 1 <= direction <= 6 /\ ~ is_byte (id_selection a) ->
   send_movement_command direction timestamp o a = (a, Some ValueError)) /\
  (~ (connected a = true /\ 1 <= direction <= 6 /\ ~ is_byte (id_selection a)) ->
   snd (send_movement_command direction timestamp o a) = None).
Proof.
  unfold send_movement_command.
  rewrite create_movement_command_closed_form.
  split.
  - intros (Hc & Hd & Hi). rewrite Hc, (is_byteb_false _ Hi). cbn [negb].
    destruct (Z.leb_spec 1 direction), (Z.leb_spec direction 6); try lia.
    reflexivity.
  - intros Hn. destruct (connected a); cbn [negb]; [| reflexivity].
    destruct (Z.leb_spec 1 direction), (Z.leb_spec direction 6); cbn [andb];
      try reflexivity.
    destruct (is_byte_dec (id_selection a)) as [Hi | Hi].
    + rewrite (is_byteb_true _ Hi).
      destruct (send_data _ o (tcp_client a)) as [w [[|] m]]; reflexivity.
    + exfalso. apply Hn. repeat split; assumption.
Qed.

(** When the speed handler raises, and what it leaves. *)
Lemma send_speed_command_exn (a : app) (accel_input : option Z)
    (timestamp : string) (o : send_outcome) :
  (connected a = true /\
   (exists accel_time, accel_input = Some accel_time /\ 0 <= accel_time <= 255) /\
   ~ is_byte (id_selection a) ->
   send_speed_command accel_input timestamp o a = (a, Some ValueError)) /\
  (~ (connected a = true /\
      (exists accel_time, accel_input = Some accel_time /\ 0 <= accel_time <= 255) /\
      ~ is_byte (id_selection a)) ->
   snd (send_speed_command accel_input timestamp o a) = None).
Proof.
  unfold send_speed_command. split.
  - intros (Hc & (acc & -> & Hacc) & Hi). rewrite Hc. cbn [negb].
    destruct (Z.ltb_spec acc 0), (Z.ltb_spec 255 acc); try lia. cbn [orb].
    rewrite create_speed_command_closed_form, (is_byteb_false _ Hi).
    reflexivity.
  - intros Hn. destruct (connected a); cbn [negb]; [| reflexivity].
    destruct accel_input as [acc |]; [| reflexivity].
    destruct (Z.ltb_spec acc 0), (Z.ltb_spec 255 acc); cbn [orb];
      try reflexivity.
    rewrite create_speed_command_closed_form.
    destruct (is_byte_dec (id_selection a)) as [Hi | Hi].
    + rewrite (is_byteb_true _ Hi).
      destruct (send_data _ o (tcp_client a)) as [w [[|] m]]; reflexivity.
    + exfalso. apply Hn. split; [reflexivity |]. split; [| exact Hi].
      exists acc. split; [reflexivity | lia].
Qed.

(** X22. The movement handler raises exactly when the client is
    connected, the direction is in 1..6 and the id is outside 0..255; the
    speed handler raises exactly when the client is connected, the accel
    entered is a number in 0..255 and the id is outside 0..255. In both
    cases the exception is [ValueError], raised out of the handler before
    anything is sent, logged or shown. In particular, with an id in
    0..255, which is all the id buttons offer, neither handler raises. *)
Theorem handlers_raise_on_bad_id
    (a : app) (direction : Z) (accel_input : option Z)
    (timestamp : string) (o : send_outcome) :
  (snd (send_movement_command direction timestamp o a) <> None <->
   connected a = true /\ 1 <= direction <= 6 /\ ~ is_byte (id_selection a)) /\
  (snd (send_speed_command accel_input timestamp o a) <> None <->
   connected a = true /\
   (exists accel_time, accel_input = Some accel_time /\ 0 <= accel_time <= 255) /\
   ~ is_byte (id_selection a)) /\
  (snd (send_movement_command direction timestamp o a) <> None ->
   send_movement_command direction timestamp o a = (a, Some ValueError)) /\
  (snd (send_speed_command accel_input timestamp o a) <> None ->
   send_speed_command accel_input timestamp o a = (a, Some ValueError)).
Proof.
  destruct (send_movement_command_exn a direction timestamp o) as [Hm1 Hm2].
  destruct (send_speed_command_exn a accel_input timestamp o) as [Hs1 Hs2].
  assert ((connected a = true /\ 1 <= direction <= 6 /\
           ~ is_byte (id_selection a)) \/
          ~ (connected a = true /\ 1 <= direction <= 6 /\
             ~ is_byte (id_selection a))) as Dm.
  { destruct (connected a); [| right; intros (H & _); discriminate H].
    destruct (is_byte_dec (id_selection a)) as [Hi | Hi];
      [right; intros (_ & _ & H); now apply H |].
    destruct (Z_le_dec 1 direction), (Z_le_dec direction 6);
      try (right; intros (_ & H & _); lia).
    left. repeat split; assumption. }
  assert ((connected a = true /\
           (exists accel_time,
              accel_input = Some accel_time /\ 0 <= accel_time <= 255) /\
           ~ is_byte (id_selection a)) \/
          ~ (connected a = true /\
             (exists accel_time,
                accel_input = Some accel_time /\ 0 <= accel_time <= 255) /\
             ~ is_byte (id_selection a))) as Ds.
  { destruct (connected a); [| right; intros (H & _); discriminate H].
    destruct (is_byte_dec (id_selection a)) as [Hi | Hi];
      [right; intros (_ & _ & H); now apply H |].
    destruct accel_input as [acc |];
      [| right; intros (_ & (x & Hx & _) & _); discriminate Hx].
    destruct (Z_le_dec 0 acc), (Z_le_dec acc 255);
      try (right; intros (_ & (x & Hx & Hr) & _); injection Hx as ->; lia).
    left. split; [reflexivity |]. split; [| exact Hi].
    exists acc. split; [reflexivity | lia]. }
  split; [| split; [| split]].
  - split.
    + intros Hne. destruct Dm as [H | H]; [exact H |].
      exfalso. apply Hne. now apply Hm2.
    + intros H. rewrite (Hm1 H). discriminate.
  - split.
    + intros Hne. destruct Ds as [H | H]; [exact H |].
      exfalso. apply Hne. now apply Hs2.
    + intros H. rewrite (Hs1 H). discriminate.
  - intros Hne. destruct Dm as [H | H]; [now apply Hm1 |].
    exfalso. apply Hne. now apply Hm2.
  - intros Hne. destruct Ds as [H | H]; [now apply Hs1 |].
    exfalso. apply Hne. now apply Hs2.
Qed.

Lemma handlers_raise_on_bad_id_witness :
  let a := mkApp connected_world 256 70 90 "" "" [] in
  send_movement_command 1 "12:00:00" SendSucceeds a = (a, Some ValueError) /\
  send_speed_command (Some 10) "12:00:00" SendSucceeds a = (a, Some ValueError).
Proof.
  destruct (handlers_raise_on_bad_id
              (mkApp connected_world 256 70 90 "" "" []) 1 (Some 10)
              "12:00:00" SendSucceeds) as (_ & _ & Hm & Hs).
  split.
  - apply Hm. vm_compute. discriminate.
  - apply Hs. vm_compute. discriminate.
Defined.

Lemma append_assoc (s1 s2 s3 : string) :
  (s1 +:+ s2) +:+ s3 = s1 +:+ s2 +:+ s3.
Proof.
  induction s1 as [| c s1 IH]; [reflexivity |].
  change (String c ((s1 +:+ s2) +:+ s3) = String c (s1 +:+ s2 +:+ s3)).
  now f_equal.
Qed.

(** X23. The send pane tells what went over the wire: a handler adds text
    to it only after a [sendall] that succeeded, and the text it adds ends
    with the hex dump of the very frame that was written, followed by a
    newline. *)
Theorem send_log_matches_wire
    (a a' : app) (e : option exn) (direction : Z) (accel_input : option Z)
    (logged_byte : Res Z) (timestamp : string) (o : send_outcome) :
  send_movement_command direction timestamp o a = (a', e) \/
  send_speed_command accel_input timestamp o a = (a', e) \/
  send_angle_command logged_byte timestamp o a = (a', e) ->
  send_text a' = send_text a \/
  exists s frame prefix,
    o = SendSucceeds /\
    ops (tcp_client a') = ops (tcp_client a) ++ [OpSendAll s frame] /\
    send_text a' = send_text a +:+ prefix +:+ format_hex frame +:+ newline.
Proof.
  intros [H | [H | H]].
  - unfold send_movement_command in H.
    destruct (connected a) eqn:Hc; cbn [negb] in H;
      [| injection H as <- <-; left; reflexivity].
    destruct (create_movement_command direction (id_selection a))
      as [[[| b cmd] |] | ex] eqn:Hcmd;
      try (injection H as <- <-; left; reflexivity).
    destruct (send_data_shape (b :: cmd) o (tcp_client a))
      as [Hs | (s & w' & msg & ok & Hs & _ & _ & Hops & Hok)];
      rewrite Hs in H.
    + injection H as <- <-. left. reflexivity.
    + destruct ok; injection H as <- <-; [| left; reflexivity].
      right. exists s, (b :: cmd).
      exists ("[" +:+ timestamp +:+ "] " +:+ id_name (id_selection a) +:+ " "
                +:+ default "未知" (direction_names !! direction) +:+ ": ").
      split; [now apply Hok |]. split; [exact Hops |].
      cbn [send_text log_send with_client id_selection].
      rewrite !append_assoc. reflexivity.
  - unfold send_speed_command in H.
    destruct (connected a) eqn:Hc; cbn [negb] in H;
      [| injection H as <- <-; left; reflexivity].
    destruct accel_input as [accel_time |];
      [| injection H as <- <-; left; reflexivity].
    destruct ((accel_time <? 0) || (255 <? accel_time));
      [injection H as <- <-; left; reflexivity |].
    destruct (create_speed_command (current_speed a) accel_time (id_selection a))
      as [cmd | ex] eqn:Hcmd; [| injection H as <- <-; left; reflexivity].
    destruct (send_data_shape cmd o (tcp_client a))
      as [Hs | (s & w' & msg & ok & Hs & _ & _ & Hops & Hok)];
      rewrite Hs in H.
    + injection H as <- <-. left. reflexivity.
    + destruct ok; injection H as <- <-; [| left; reflexivity].
      right. exists s, cmd.
      exists (("[" +:+ timestamp +:+ "] " +:+ id_name (id_selection a)
                 +:+ " 设置速度: " +:+ pretty (current_speed a)
                 +:+ "RPM, 加速时间: " +:+ pretty accel_time)
                +:+ newline +:+ "       指令: ").
      split; [now apply Hok |]. split; [exact Hops |].
      cbn [send_text log_send with_client id_selection current_speed].
      rewrite !append_assoc. reflexivity.
  - unfold send_angle_command in H.
    destruct (connected a) eqn:Hc; cbn [negb] in H;
      [| injection H as <- <-; left; reflexivity].
    destruct (create_angle_command (current_angle a) 0x00)
      as [cmd | ex] eqn:Hcmd; [| injection H as <- <-; left; reflexivity].
    destruct (send_data_shape cmd o (tcp_client a))
      as [Hs | (s & w' & msg & ok & Hs & _ & _ & Hops & Hok)];
      rewrite Hs in H.
    + injection H as <- <-. left. reflexivity.
    + destruct ok; [destruct logged_byte as [angle_byte | ex] |];
        injection H as <- <-; try (left; reflexivity).
      right. exists s, cmd.
      exists (("[" +:+ timestamp +:+ "] 设置角度: " +:+ pretty (current_angle a)
                 +:+ "° (字节: 0x" +:+ format_02X angle_byte +:+ ")")
                +:+ newline +:+ "       指令: ").
      split; [now apply Hok |]. split; [exact Hops |].
      cbn [send_text log_send with_client current_angle].
      rewrite !append_assoc. reflexivity.
Qed.

Lemma send_log_matches_wire_witness :
  let a' := fst (send_movement_command 1 "12:00:00" SendSucceeds connected_app) in
  send_text a' = send_text connected_app \/
  exists s frame prefix,
    SendSucceeds = SendSucceeds /\
    ops (tcp_client a') = ops (tcp_client connected_app) ++ [OpSendAll s frame] /\
    send_text a' = send_text connected_app +:+ prefix +:+ format_hex frame
                     +:+ newline.
Proof.
  apply (send_log_matches_wire connected_app _
           (snd (send_movement_command 1 "12:00:00" SendSucceeds connected_app))
           1 None (Ok 0) "12:00:00" SendSucceeds).
  left. reflexivity.
Defined.

(** The line the movement handler writes for "forward" on the whole car. *)
Example send_movement_command_forward :
  send_text (fst (send_movement_command 1 "12:00:00" SendSucceeds connected_app))
    = "[12:00:00] 整个小车 前进: AA 55 04 80 00 01 85" +:+ newline.
Proof. reflexivity. Qed.

End HandlerProperties.

Section SilentReceiver.
Import TCPClient.

Lemma no_thread_no_receive (os : list recv_outcome) (w : world) :
  live_threads w = 0%nat -> run (EvReceive <$> os) w = w.
Proof.
  intros H. induction os as [| o os IH]; [reflexivity |].
  cbn [fmap list_fmap]. unfold run. cbn [foldl step]. rewrite H. exact IH.
Qed.

(** X24. A read error in the only receive thread silences the client
    without disconnecting it: the thread returns, [is_connected] stays true,
    no chunk is read or delivered any more until a new [connect], and
    [send_data] keeps writing to the socket. *)
Theorem read_error_silences_receiver
    (w : world) (s : sock) (os : list recv_outcome) (data_bytes : bytes) :
  is_connected (self w) = true -> socket (self w) = Some s ->
  live_threads w = 1%nat ->
  let w1 := step (EvReceive RecvError) w in
  is_connected (self w1) = true /\
  live_threads w1 = 0%nat /\
  run (EvReceive <$> os) w1 = w1 /\
  exists w2,
    send_data data_bytes SendSucceeds w1 = (w2, (true, "发送成功")) /\
    ops w2 = ops w1 ++ [OpSendAll s data_bytes].
Proof.
  intros Hc Hs Ht w1.
  assert (w1 = thread_returns (log_ops [OpRecv s 1024] w)) as Hw1.
  { subst w1. cbn [step]. rewrite Ht. unfold receive_iteration.
    rewrite Hc, Hs. reflexivity. }
  assert (live_threads w1 = 0%nat) as Hlive.
  { rewrite Hw1. cbn [thread_returns log_ops live_threads]. now rewrite Ht. }
  split; [rewrite Hw1; exact Hc |].
  split; [exact Hlive |].
  split; [now apply no_thread_no_receive |].
  rewrite Hw1. unfold send_data.
  cbn [thread_returns log_ops self]. rewrite Hc, Hs.
  eexists. split; reflexivity.
Qed.

Lemma read_error_silences_receiver_witness :
  let w1 := step (EvReceive RecvError) connected_world in
  is_connected (self w1) = true /\
  live_threads w1 = 0%nat /\
  run (EvReceive <$> [RecvData [0x01]; RecvTimeout]) w1 = w1 /\
  exists w2,
    send_data [0xAA; 0x55] SendSucceeds w1 = (w2, (true, "发送成功")) /\
    ops w2 = ops w1 ++ [OpSendAll 0%nat [0xAA; 0x55]].
Proof.
  apply (read_error_silences_receiver connected_world 0%nat
           [RecvData [0x01]; RecvTimeout] [0xAA; 0x55]); reflexivity.
Defined.

End SilentReceiver.
